(** * Job-application demo: form state controller and list view engine

    A shallow embedding of the state logic of the React Native demo
    (App.js, JobApplicationForm.js, CustomDropdown.js, ApplicationsList.js,
    ApplicationsListResponsive.js, useResponsive.js, validation.js,
    mockData.js) and the properties of its specification.

    JavaScript numbers that the program uses as identifiers, counters and
    amounts are integers ([Z]); strings are sequences of UTF-16 code units
    ([list N]), so that [length] is JavaScript's [.length] and the order on
    strings is the one of the relational operators. *)

From Stdlib Require Import ZArith List Bool Lia Ascii String Permutation.
From Stdlib Require QArith Qround.
From stdpp Require Import base list sorting.

Local Open Scope string_scope.
Local Open Scope list_scope.
Local Open Scope Z_scope.

(** ** JavaScript values and built-ins *)

Module JS.

Definition jsstring := list N.

(** A string literal whose characters are all ASCII. *)
Definition lit (s : string) : jsstring :=
  List.map N_of_ascii (list_ascii_of_string s).

Fixpoint eqb (a b : jsstring) : bool :=
  match a, b with
  | [], [] => true
  | x :: a', y :: b' => N.eqb x y && eqb a' b'
  | _, _ => false
  end.

(** [a < b] on strings: code unit by code unit, a proper prefix first. *)
Fixpoint ltb (a b : jsstring) : bool :=
  match a, b with
  | _, [] => false
  | [], _ :: _ => true
  | x :: a', y :: b' =>
      if N.ltb x y then true
      else if N.ltb y x then false
      else ltb a' b'
  end.

(** [a > b] is [b < a]. *)
Definition gtb (a b : jsstring) : bool := ltb b a.

(** Truthiness of a number: every integer but 0. *)
Definition truthy (n : Z) : bool := negb (n =? 0).

(** [Math.ceil(a / b)], the quotient taken in the rationals. *)
Definition Math_ceil_div (a b : Z) : Z :=
  Qround.Qceiling
    (QArith_base.Qdiv (QArith_base.inject_Z a) (QArith_base.inject_Z b)).

(** [arr.slice(start, end)]: negative arguments count from the end,
    both are clamped to the array. *)
Definition slice {A} (start end_ : Z) (arr : list A) : list A :=
  let len := Z.of_nat (length arr) in
  let from := if start <? 0 then Z.max (len + start) 0 else Z.min start len in
  let final := if end_ <? 0 then Z.max (len + end_) 0 else Z.min end_ len in
  take (Z.to_nat (Z.max (final - from) 0)) (drop (Z.to_nat from) arr).

(** [arr.find(p)]: the first element satisfying [p], if any. *)
Definition find {A} (p : A -> bool) (arr : list A) : option A :=
  List.find p arr.

(** [arr.findIndex(p)]: the index of the first element satisfying [p],
    [-1] when there is none. *)
Fixpoint findIndex_from {A} (p : A -> bool) (arr : list A) (i : Z) : Z :=
  match arr with
  | [] => -1
  | x :: rest => if p x then i else findIndex_from p rest (i + 1)
  end.

Definition findIndex {A} (p : A -> bool) (arr : list A) : Z :=
  findIndex_from p arr 0.

(** What the program takes from its host: the lowering of strings and the
    sorting of arrays.  Every engine returns the elements it was given, in
    some order; which order, when the comparator contradicts itself, is the
    engine's choice. *)
Record Host := {
  toLowerCase : jsstring -> jsstring;
  Array_sort : forall A : Type, (A -> A -> Z) -> list A -> list A
}.

Definition rearranges (H : Host) : Prop :=
  forall (A : Type) (cmp : A -> A -> Z) (l : list A),
    Permutation (Array_sort H A cmp l) l.

End JS.

(** ** The sort of V8 on short arrays

    V8 sorts with TimSort.  An array of fewer than 64 elements is one run:
    the leading run is counted (and reversed when it is strictly descending),
    then every later element is placed by binary insertion. *)

Module V8.

Section Sort.
Context {A : Type}.
Variable comparefn : A -> A -> Z.

(** The loop of CountAndMakeRun after the first two elements. *)
Fixpoint run_rest (isDescending : bool) (previous : A) (l : list A)
  : list A * list A :=
  match l with
  | [] => ([], [])
  | current :: rest =>
      let order := comparefn current previous in
      if (if isDescending then 0 <=? order else order <? 0)
      then ([], l)
      else
        let '(run, others) := run_rest isDescending current rest in
        (current :: run, others)
  end.

Definition CountAndMakeRun (l : list A) : list A * list A :=
  match l with
  | low :: high :: rest =>
      let order := comparefn high low in
      let isDescending := order <? 0 in
      let '(run, others) := run_rest isDescending high rest in
      let whole := low :: high :: run in
      (if isDescending then rev whole else whole, others)
  | _ => (l, [])
  end.

(** The binary search of BinaryInsertionSort, on the sorted prefix. *)
Fixpoint search (fuel : nat) (pivot : A) (sorted : list A)
  (left right : nat) : nat :=
  match fuel with
  | O => left
  | S fuel' =>
      if (left <? right)%nat then
        let mid := (left + (right - left) / 2)%nat in
        match sorted !! mid with
        | Some x =>
            if comparefn pivot x <? 0
            then search fuel' pivot sorted left mid
            else search fuel' pivot sorted (mid + 1)%nat right
        | None => left
        end
      else left
  end.

Definition place (sorted : list A) (pivot : A) : list A :=
  let at_ := search (S (length sorted)) pivot sorted 0%nat (length sorted) in
  take at_ sorted ++ pivot :: drop at_ sorted.

Definition BinaryInsertionSort (run others : list A) : list A :=
  fold_left place others run.

Definition sort (l : list A) : list A :=
  if (length l <? 2)%nat then l
  else let '(run, others) := CountAndMakeRun l in
       BinaryInsertionSort run others.
End Sort.

(** [toLowerCase] restricted to ASCII: A-Z become a-z and every other code
    unit is left as it is.  This is the engine's function on strings of
    ASCII characters only (the engine also lowers the cased characters
    beyond them); the data of the application is ASCII. *)
Definition toLowerCase (s : JS.jsstring) : JS.jsstring :=
  List.map (fun c => if (65 <=? c)%N && (c <=? 90)%N then (c + 32)%N else c) s.

Definition host : JS.Host :=
  {| JS.toLowerCase := toLowerCase; JS.Array_sort := @sort |}.

(** V8's sort beside any lowering of strings, for statements that do not
    depend on the characters of the data. *)
Definition hostWith (lower : JS.jsstring -> JS.jsstring) : JS.Host :=
  {| JS.toLowerCase := lower; JS.Array_sort := @sort |}.

End V8.

(** ** mockData.js *)

Module MockData.
Import JS.

Record Option_ := { id : Z; name : jsstring }.

Record Role := { role_id : Z; role_name : jsstring; minSalary : Z }.

Definition opt (i : Z) (n : string) : Option_ := {| id := i; name := lit n |}.

Definition role (i : Z) (n : string) (m : Z) : Role :=
  {| role_id := i; role_name := lit n; minSalary := m |}.

Definition countries : list Option_ :=
  [ opt 1 "United States"; opt 2 "Canada"; opt 3 "United Kingdom";
    opt 4 "Germany"; opt 5 "France" ].

(** [citiesByCountry[k]]: [None] is JavaScript's [undefined]. *)
Definition citiesByCountry (k : Z) : option (list Option_) :=
  match k with
  | 1 => Some [ opt 101 "New York"; opt 102 "Los Angeles";
                opt 103 "Chicago"; opt 104 "Houston" ]
  | 2 => Some [ opt 201 "Toronto"; opt 202 "Vancouver"; opt 203 "Montreal" ]
  | 3 => Some [ opt 301 "London"; opt 302 "Manchester"; opt 303 "Birmingham" ]
  | 4 => Some [ opt 401 "Berlin"; opt 402 "Munich"; opt 403 "Hamburg" ]
  | 5 => Some [ opt 501 "Paris"; opt 502 "Lyon"; opt 503 "Marseille" ]
  | _ => None
  end.

Definition industries : list Option_ :=
  [ opt 1 "Technology"; opt 2 "Healthcare"; opt 3 "Finance";
    opt 4 "Education"; opt 5 "Manufacturing" ].

Definition rolesByIndustry (k : Z) : option (list Role) :=
  match k with
  | 1 => Some [ role 101 "Software Engineer" 80000;
                role 102 "Product Manager" 90000;
                role 103 "DevOps Engineer" 85000;
                role 104 "Data Scientist" 95000 ]
  | 2 => Some [ role 201 "Nurse" 60000;
                role 202 "Medical Assistant" 40000;
                role 203 "Healthcare Admin" 50000 ]
  | 3 => Some [ role 301 "Financial Analyst" 70000;
                role 302 "Accountant" 65000;
                role 303 "Investment Banker" 100000 ]
  | 4 => Some [ role 401 "Teacher" 45000;
                role 402 "Professor" 70000;
                role 403 "Administrator" 55000 ]
  | 5 => Some [ role 501 "Production Manager" 65000;
                role 502 "Quality Engineer" 70000;
                role 503 "Operations Manager" 75000 ]
  | _ => None
  end.

Definition experienceLevels : list Option_ :=
  [ opt 1 "Entry Level (0-2 years)"; opt 2 "Mid Level (3-5 years)";
    opt 3 "Senior Level (6-10 years)"; opt 4 "Expert Level (10+ years)" ].

(** A record of the applications list. *)
Record Application := {
  app_id : Z;
  app_firstName : jsstring;
  app_lastName : jsstring;
  app_email : jsstring;
  app_country : jsstring;
  app_city : jsstring;
  app_industry : jsstring;
  app_role : jsstring;
  app_experience : jsstring;
  app_salary : Z;
  app_status : jsstring;
  app_createdAt : jsstring
}.

Definition application (i : Z) (fn ln em co ci ind ro ex : string) (sal : Z)
  (st cr : string) : Application :=
  {| app_id := i; app_firstName := lit fn; app_lastName := lit ln;
     app_email := lit em; app_country := lit co; app_city := lit ci;
     app_industry := lit ind; app_role := lit ro; app_experience := lit ex;
     app_salary := sal; app_status := lit st; app_createdAt := lit cr |}.

Definition john : Application :=
  application 1 "John" "Doe" "john.doe@example.com" "United States"
    "New York" "Technology" "Software Engineer" "Senior Level (6-10 years)"
    120000 "submitted" "2024-11-01T10:30:00Z".

Definition jane : Application :=
  application 2 "Jane" "Smith" "jane.smith@example.com" "Canada" "Toronto"
    "Finance" "Financial Analyst" "Mid Level (3-5 years)" 85000 "draft"
    "2024-11-03T14:20:00Z".

Definition robert : Application :=
  application 3 "Robert" "Johnson" "robert.j@example.com" "United Kingdom"
    "London" "Healthcare" "Nurse" "Entry Level (0-2 years)" 62000
    "submitted" "2024-11-05T09:15:00Z".

Definition maria : Application :=
  application 4 "Maria" "Garcia" "maria.garcia@example.com" "Germany"
    "Berlin" "Technology" "Data Scientist" "Expert Level (10+ years)"
    145000 "submitted" "2024-11-07T11:45:00Z".

Definition pierre : Application :=
  application 5 "Pierre" "Dupont" "pierre.dupont@example.com" "France"
    "Paris" "Education" "Professor" "Senior Level (6-10 years)" 78000
    "draft" "2024-11-08T16:00:00Z".

Definition mockApplications : list Application :=
  [ john; jane; robert; maria; pierre ].

End MockData.

(** ** ApplicationsList.js: the list view engine *)

Module ApplicationsList.
Import JS MockData.

(** The keys of an application record, as [a[sortField]] reads them. *)
Inductive Key :=
| Kid | KfirstName | KlastName | Kemail | Kcountry | Kcity | Kindustry
| Krole | Kexperience | Ksalary | Kstatus | KcreatedAt.

Definition Key_eqb (a b : Key) : bool :=
  match a, b with
  | Kid, Kid | KfirstName, KfirstName | KlastName, KlastName
  | Kemail, Kemail | Kcountry, Kcountry | Kcity, Kcity
  | Kindustry, Kindustry | Krole, Krole | Kexperience, Kexperience
  | Ksalary, Ksalary | Kstatus, Kstatus | KcreatedAt, KcreatedAt => true
  | _, _ => false
  end.

Inductive Value :=
| Num (n : Z)
| Str (s : jsstring).

Definition prop (k : Key) (a : Application) : Value :=
  match k with
  | Kid => Num (app_id a)
  | KfirstName => Str (app_firstName a)
  | KlastName => Str (app_lastName a)
  | Kemail => Str (app_email a)
  | Kcountry => Str (app_country a)
  | Kcity => Str (app_city a)
  | Kindustry => Str (app_industry a)
  | Krole => Str (app_role a)
  | Kexperience => Str (app_experience a)
  | Ksalary => Num (app_salary a)
  | Kstatus => Str (app_status a)
  | KcreatedAt => Str (app_createdAt a)
  end.

(** [x > y] and [x < y].  One key has one type in every record, so the
    operands of the comparator are two numbers or two strings. *)
Definition Value_gtb (x y : Value) : bool :=
  match x, y with
  | Num a, Num b => b <? a
  | Str a, Str b => JS.gtb a b
  | _, _ => false
  end.

Definition Value_ltb (x y : Value) : bool :=
  match x, y with
  | Num a, Num b => a <? b
  | Str a, Str b => JS.ltb a b
  | _, _ => false
  end.

Inductive Direction := asc | desc.

Record View := {
  currentPage : Z;
  itemsPerPage : Z;
  sortField : Key;
  sortDirection : Direction;
  filterStatus : jsstring
}.

(** The state of a freshly mounted list. *)
Definition initial : View :=
  {| currentPage := 1; itemsPerPage := 5; sortField := KcreatedAt;
     sortDirection := desc; filterStatus := lit "all" |}.

Section Engine.
Variable H : Host.

(** The callback handed to [sort].  [typeof aVal === 'string'] lowers both
    operands; [bVal] is read under the same key, so it is a string too. *)
Definition comparator (field : Key) (direction : Direction)
  (a b : Application) : Z :=
  let aVal := prop field a in
  let bVal := prop field b in
  let '(aVal, bVal) :=
    match aVal, bVal with
    | Str x, Str y => (Str (toLowerCase H x), Str (toLowerCase H y))
    | _, _ => (aVal, bVal)
    end in
  match direction with
  | asc => if Value_gtb aVal bVal then 1 else -1
  | desc => if Value_ltb aVal bVal then 1 else -1
  end.

Definition filtered (v : View) (applications : list Application)
  : list Application :=
  if negb (JS.eqb (filterStatus v) (lit "all"))
  then List.filter (fun app => JS.eqb (app_status app) (filterStatus v))
         applications
  else applications.

Definition sortedAndFilteredData (v : View)
  (applications : list Application) : list Application :=
  Array_sort H Application (comparator (sortField v) (sortDirection v))
    (filtered v applications).

Definition paginatedData (v : View) (applications : list Application)
  : list Application :=
  let startIndex := (currentPage v - 1) * itemsPerPage v in
  let endIndex := startIndex + itemsPerPage v in
  slice startIndex endIndex (sortedAndFilteredData v applications).

Definition totalPages (v : View) (applications : list Application) : Z :=
  Math_ceil_div
    (Z.of_nat (length (sortedAndFilteredData v applications)))
    (itemsPerPage v).
End Engine.

(** The key the comparator compares: [a[sortField]], a string lowered. *)
Definition sortKey (H : Host) (field : Key) (a : Application) : Value :=
  match prop field a with
  | Str s => Str (toLowerCase H s)
  | Num n => Num n
  end.

Definition handleSort (field : Key) (v : View) : View :=
  if Key_eqb (sortField v) field then
    {| currentPage := currentPage v; itemsPerPage := itemsPerPage v;
       sortField := sortField v;
       sortDirection := match sortDirection v with asc => desc | desc => asc end;
       filterStatus := filterStatus v |}
  else
    {| currentPage := currentPage v; itemsPerPage := itemsPerPage v;
       sortField := field; sortDirection := asc;
       filterStatus := filterStatus v |}.

(** [onPress] of a filter button. *)
Definition setFilter (status : jsstring) (v : View) : View :=
  {| currentPage := 1; itemsPerPage := itemsPerPage v;
     sortField := sortField v; sortDirection := sortDirection v;
     filterStatus := status |}.

End ApplicationsList.

(** ** validation.js: the schemas of the three steps *)

Module Validation.
Import JS.

(** The values the form holds, one per control. *)
Record FieldValues := {
  firstName : jsstring;
  lastName : jsstring;
  email : jsstring;
  phone : jsstring;
  countryId : Z;
  cityId : Z;
  address : jsstring;
  postalCode : jsstring;
  industryId : Z;
  roleId : Z;
  experienceId : Z;
  expectedSalary : Z
}.

Definition set_firstName (x : jsstring) (v : FieldValues) : FieldValues :=
  {| firstName := x; lastName := lastName v; email := email v;
     phone := phone v; countryId := countryId v; cityId := cityId v;
     address := address v; postalCode := postalCode v;
     industryId := industryId v; roleId := roleId v;
     experienceId := experienceId v; expectedSalary := expectedSalary v |}.

Definition set_lastName (x : jsstring) (v : FieldValues) : FieldValues :=
  {| firstName := firstName v; lastName := x; email := email v;
     phone := phone v; countryId := countryId v; cityId := cityId v;
     address := address v; postalCode := postalCode v;
     industryId := industryId v; roleId := roleId v;
     experienceId := experienceId v; expectedSalary := expectedSalary v |}.

Definition set_email (x : jsstring) (v : FieldValues) : FieldValues :=
  {| firstName := firstName v; lastName := lastName v; email := x;
     phone := phone v; countryId := countryId v; cityId := cityId v;
     address := address v; postalCode := postalCode v;
     industryId := industryId v; roleId := roleId v;
     experienceId := experienceId v; expectedSalary := expectedSalary v |}.

Definition set_phone (x : jsstring) (v : FieldValues) : FieldValues :=
  {| firstName := firstName v; lastName := lastName v; email := email v;
     phone := x; countryId := countryId v; cityId := cityId v;
     address := address v; postalCode := postalCode v;
     industryId := industryId v; roleId := roleId v;
     experienceId := experienceId v; expectedSalary := expectedSalary v |}.

Definition set_countryId (x : Z) (v : FieldValues) : FieldValues :=
  {| firstName := firstName v; lastName := lastName v; email := email v;
     phone := phone v; countryId := x; cityId := cityId v;
     address := address v; postalCode := postalCode v;
     industryId := industryId v; roleId := roleId v;
     experienceId := experienceId v; expectedSalary := expectedSalary v |}.

Definition set_cityId (x : Z) (v : FieldValues) : FieldValues :=
  {| firstName := firstName v; lastName := lastName v; email := email v;
     phone := phone v; countryId := countryId v; cityId := x;
     address := address v; postalCode := postalCode v;
     industryId := industryId v; roleId := roleId v;
     experienceId := experienceId v; expectedSalary := expectedSalary v |}.

Definition set_address (x : jsstring) (v : FieldValues) : FieldValues :=
  {| firstName := firstName v; lastName := lastName v; email := email v;
     phone := phone v; countryId := countryId v; cityId := cityId v;
     address := x; postalCode := postalCode v; industryId := industryId v;
     roleId := roleId v; experienceId := experienceId v;
     expectedSalary := expectedSalary v |}.

Definition set_postalCode (x : jsstring) (v : FieldValues) : FieldValues :=
  {| firstName := firstName v; lastName := lastName v; email := email v;
     phone := phone v; countryId := countryId v; cityId := cityId v;
     address := address v; postalCode := x; industryId := industryId v;
     roleId := roleId v; experienceId := experienceId v;
     expectedSalary := expectedSalary v |}.

Definition set_industryId (x : Z) (v : FieldValues) : FieldValues :=
  {| firstName := firstName v; lastName := lastName v; email := email v;
     phone := phone v; countryId := countryId v; cityId := cityId v;
     address := address v; postalCode := postalCode v; industryId := x;
     roleId := roleId v; experienceId := experienceId v;
     expectedSalary := expectedSalary v |}.

Definition set_roleId (x : Z) (v : FieldValues) : FieldValues :=
  {| firstName := firstName v; lastName := lastName v; email := email v;
     phone := phone v; countryId := countryId v; cityId := cityId v;
     address := address v; postalCode := postalCode v;
     industryId := industryId v; roleId := x;
     experienceId := experienceId v; expectedSalary := expectedSalary v |}.

Definition set_experienceId (x : Z) (v : FieldValues) : FieldValues :=
  {| firstName := firstName v; lastName := lastName v; email := email v;
     phone := phone v; countryId := countryId v; cityId := cityId v;
     address := address v; postalCode := postalCode v;
     industryId := industryId v; roleId := roleId v; experienceId := x;
     expectedSalary := expectedSalary v |}.

Definition set_expectedSalary (x : Z) (v : FieldValues) : FieldValues :=
  {| firstName := firstName v; lastName := lastName v; email := email v;
     phone := phone v; countryId := countryId v; cityId := cityId v;
     address := address v; postalCode := postalCode v;
     industryId := industryId v; roleId := roleId v;
     experienceId := experienceId v; expectedSalary := x |}.
Inductive Field :=
| F_firstName | F_lastName | F_email | F_phone
| F_countryId | F_cityId | F_address | F_postalCode
| F_industryId | F_roleId | F_experienceId | F_expectedSalary
| F_form.

(** An issue of a schema: the field it is attached to and its message. *)
Definition Issue : Type := Field * string.

(** [z.string().min(n, message)] *)
Definition string_min (n : nat) (f : Field) (message : string)
  (s : jsstring) : list Issue :=
  if (length s <? n)%nat then [(f, message)] else [].

(** [z.number().min(n, message)] *)
Definition number_min (n : Z) (f : Field) (message : string) (x : Z)
  : list Issue :=
  if x <? n then [(f, message)] else [].

(** [\d], [\s] and the class [[\d\s-()]] of the phone pattern. *)
Definition isDigit (c : N) : bool := ((48 <=? c) && (c <=? 57))%N.

Definition isSpace (c : N) : bool :=
  (((9 <=? c) && (c <=? 13)) || (c =? 32) || (c =? 160) || (c =? 5760)
   || ((8192 <=? c) && (c <=? 8202)) || (c =? 8232) || (c =? 8233)
   || (c =? 8239) || (c =? 8287) || (c =? 12288) || (c =? 65279))%N.

Definition phoneClass (c : N) : bool :=
  (isDigit c || isSpace c || (c =? 45) || (c =? 40) || (c =? 41))%N.

(** [/^\+?[\d\s-()]+$/.test(s)] *)
Definition phonePattern (s : jsstring) : bool :=
  let body := match s with 43%N :: rest => rest | _ => s end in
  match body with
  | [] => false
  | _ :: _ => forallb phoneClass body
  end.

Section Schemas.
(** [z.string().email()]: the pattern is the validation library's. *)
Variable isEmail : jsstring -> bool.

Definition personalInfoSchema (v : FieldValues) : list Issue :=
  string_min 2 F_firstName "First name must be at least 2 characters"
    (firstName v)
  ++ string_min 2 F_lastName "Last name must be at least 2 characters"
       (lastName v)
  ++ (if isEmail (email v) then [] else [(F_email, "Invalid email address")])
  ++ (if phonePattern (phone v) then []
      else [(F_phone, "Invalid phone number")]).

Definition locationSchema (v : FieldValues) : list Issue :=
  number_min 1 F_countryId "Country is required" (countryId v)
  ++ number_min 1 F_cityId "City is required" (cityId v)
  ++ string_min 5 F_address "Address must be at least 5 characters"
       (address v)
  ++ string_min 3 F_postalCode "Postal code is required" (postalCode v).

(** The callback of [refine]: it accepts every object. *)
Definition salaryRefinement (v : FieldValues) : bool := true.

Definition professionalInfoSchema (v : FieldValues) : list Issue :=
  number_min 1 F_industryId "Industry is required" (industryId v)
  ++ number_min 1 F_roleId "Role is required" (roleId v)
  ++ number_min 1 F_experienceId "Experience level is required"
       (experienceId v)
  ++ number_min 1 F_expectedSalary "Expected salary is required"
       (expectedSalary v)
  ++ (if salaryRefinement v then [] else [(F_form, "Salary validation")]).
End Schemas.

(** A stand-in for the e-mail pattern, to run the form on examples: a
    string that holds an at sign. *)
Definition hasAt (s : jsstring) : bool := existsb (N.eqb 64) s.

End Validation.

(** ** JobApplicationForm.js and CustomDropdown.js: the form state controller *)

Module JobApplicationForm.
Import JS MockData Validation.

(** The message [`Minimum salary for ${name} is $${minSalary}`], kept as
    the two values it names. *)
Record SalaryError := { for_role : jsstring; minimum : Z }.

Inductive Alert :=
| PleaseFixErrors
| SalaryAlert (e : SalaryError).

(** The dependency arrays of the three effects, as one render sees them. *)
Record Deps := {
  watchCountry : Z;
  watchIndustry : Z;
  watchRole : Z;
  rolesSeen : list Role
}.

(** The state of the component: React state, the values held by the form
    library ([watch] reads them, [setValue] writes them at once), and the
    dependencies of the last render whose effects have run. *)
Record Form := {
  step : Z;
  formData : FieldValues;
  values : FieldValues;
  availableCities : list Option_;
  availableRoles : list Role;
  selectedRole : option Role;
  committed : option Deps
}.

Definition setStep (x : Z) (s : Form) : Form :=
  {| step := x; formData := formData s; values := values s;
     availableCities := availableCities s;
     availableRoles := availableRoles s; selectedRole := selectedRole s;
     committed := committed s |}.

Definition setFormData (x : FieldValues) (s : Form) : Form :=
  {| step := step s; formData := x; values := values s;
     availableCities := availableCities s;
     availableRoles := availableRoles s; selectedRole := selectedRole s;
     committed := committed s |}.

Definition setValues (x : FieldValues) (s : Form) : Form :=
  {| step := step s; formData := formData s; values := x;
     availableCities := availableCities s;
     availableRoles := availableRoles s; selectedRole := selectedRole s;
     committed := committed s |}.

Definition setAvailableCities (x : list Option_) (s : Form) : Form :=
  {| step := step s; formData := formData s; values := values s;
     availableCities := x;
     availableRoles := availableRoles s; selectedRole := selectedRole s;
     committed := committed s |}.

Definition setAvailableRoles (x : list Role) (s : Form) : Form :=
  {| step := step s; formData := formData s; values := values s;
     availableCities := availableCities s;
     availableRoles := x; selectedRole := selectedRole s;
     committed := committed s |}.

Definition setSelectedRole (x : option Role) (s : Form) : Form :=
  {| step := step s; formData := formData s; values := values s;
     availableCities := availableCities s;
     availableRoles := availableRoles s; selectedRole := x;
     committed := committed s |}.

Definition setCommitted (x : option Deps) (s : Form) : Form :=
  {| step := step s; formData := formData s; values := values s;
     availableCities := availableCities s;
     availableRoles := availableRoles s; selectedRole := selectedRole s;
     committed := x |}.

(** [setValue(name, x)] of the form library. *)
Definition setValue (write : FieldValues -> FieldValues) (s : Form) : Form :=
  setValues (write (values s)) s.

(** [{ ...a, ...b }] for two objects that hold every field of the form:
    each key takes the value of the later operand. *)
Definition spread (a b : FieldValues) : FieldValues := b.

(** The literal that [useState] receives, before [...initialData]. *)
Definition defaultValues : FieldValues :=
  {| firstName := []; lastName := []; email := []; phone := [];
     countryId := 0; cityId := 0; address := []; postalCode := [];
     industryId := 0; roleId := 0; experienceId := 0;
     expectedSalary := 0 |}.

(** [{ ...defaults, ...initialData }] when [initialData] is a record of
    the applications list (or [null]): the keys they share are copied. *)
Definition fromApplication (initialData : option Application) : FieldValues :=
  match initialData with
  | None => defaultValues
  | Some app =>
      set_firstName (app_firstName app)
        (set_lastName (app_lastName app)
           (set_email (app_email app) defaultValues))
  end.

Definition isSome {A} (o : option A) : bool :=
  match o with Some _ => true | None => false end.

Definition Role_eqb (a b : Role) : bool :=
  (role_id a =? role_id b) && JS.eqb (role_name a) (role_name b)
  && (minSalary a =? minSalary b).

Fixpoint roles_eqb (a b : list Role) : bool :=
  match a, b with
  | [], [] => true
  | x :: a', y :: b' => Role_eqb x y && roles_eqb a' b'
  | _, _ => false
  end.

(** *** The three effects *)

Definition countryEffect (watchCountry : Z) (s : Form) : Form :=
  if truthy watchCountry && (0 <? watchCountry) then
    let cities := default [] (citiesByCountry watchCountry) in
    let s := setAvailableCities cities s in
    let currentCity := cityId (values s) in
    let cityExists := find (fun c => id c =? currentCity) cities in
    if negb (isSome cityExists) && negb (currentCity =? 0)
    then setValue (set_cityId 0) s
    else s
  else
    setValue (set_cityId 0) (setAvailableCities [] s).

Definition industryEffect (watchIndustry : Z) (s : Form) : Form :=
  if truthy watchIndustry && (0 <? watchIndustry) then
    let roles := default [] (rolesByIndustry watchIndustry) in
    let s := setAvailableRoles roles s in
    let currentRole := roleId (values s) in
    let roleExists := find (fun r => role_id r =? currentRole) roles in
    if negb (isSome roleExists) && negb (currentRole =? 0)
    then setSelectedRole None (setValue (set_roleId 0) s)
    else s
  else
    setSelectedRole None
      (setValue (set_roleId 0) (setAvailableRoles [] s)).

(** The third effect reads [watchRole] and [availableRoles] as the render
    that scheduled it saw them. *)
Definition roleEffect (watchRole : Z) (availableRoles : list Role)
  (s : Form) : Form :=
  if truthy watchRole && (0 <? watchRole) then
    let role := find (fun r => role_id r =? watchRole) availableRoles in
    setSelectedRole role s
  else
    setSelectedRole None s.

(** *** Rendering: effects run when their dependencies changed *)

Definition watched (s : Form) : Deps :=
  {| watchCountry := countryId (values s);
     watchIndustry := industryId (values s);
     watchRole := roleId (values s);
     rolesSeen := availableRoles s |}.

Definition Deps_eqb (a b : Deps) : bool :=
  (watchCountry a =? watchCountry b) && (watchIndustry a =? watchIndustry b)
  && (watchRole a =? watchRole b) && roles_eqb (rolesSeen a) (rolesSeen b).

(** One render followed by its effects, in the order of the source.  An
    effect runs when one of its dependencies differs from the render before;
    the role lists, which React compares by identity, are compared by their
    contents: they are entries of the table or empty, and the third effect
    only recomputes [selectedRole] from what it watches. *)
Definition commit (s : Form) : Form :=
  let now := watched s in
  let changed (differs : Deps -> bool) : bool :=
    match committed s with
    | None => true
    | Some before => differs before
    end in
  let s1 :=
    if changed (fun before => negb (watchCountry before =? watchCountry now))
    then countryEffect (watchCountry now) s else s in
  let s2 :=
    if changed (fun before => negb (watchIndustry before =? watchIndustry now))
    then industryEffect (watchIndustry now) s1 else s1 in
  let s3 :=
    if changed (fun before =>
                  negb (watchRole before =? watchRole now)
                  || negb (roles_eqb (rolesSeen before) (rolesSeen now)))
    then roleEffect (watchRole now) (rolesSeen now) s2 else s2 in
  setCommitted (Some now) s3.

(** A render is due while the watched values differ from those of the
    last render. *)
Definition pending (s : Form) : bool :=
  match committed s with
  | None => true
  | Some before => negb (Deps_eqb before (watched s))
  end.

Fixpoint settle (fuel : nat) (s : Form) : Form :=
  match fuel with
  | O => s
  | S fuel' => if pending s then settle fuel' (commit s) else s
  end.

(** Renders follow a state change until nothing is due any more. *)
Definition render (s : Form) : Form := settle 3 s.

(** The component as first displayed. *)
Definition mount (initial : FieldValues) : Form :=
  render {| step := 1; formData := initial; values := initial;
            availableCities := []; availableRoles := [];
            selectedRole := None; committed := None |}.

(** *** Controls *)

Inductive Update :=
| U_firstName (x : jsstring) | U_lastName (x : jsstring)
| U_email (x : jsstring) | U_phone (x : jsstring)
| U_countryId (x : Z) | U_cityId (x : Z)
| U_address (x : jsstring) | U_postalCode (x : jsstring)
| U_industryId (x : Z) | U_roleId (x : Z)
| U_experienceId (x : Z) | U_expectedSalary (x : Z).

Definition write (u : Update) : FieldValues -> FieldValues :=
  match u with
  | U_firstName x => set_firstName x | U_lastName x => set_lastName x
  | U_email x => set_email x | U_phone x => set_phone x
  | U_countryId x => set_countryId x | U_cityId x => set_cityId x
  | U_address x => set_address x | U_postalCode x => set_postalCode x
  | U_industryId x => set_industryId x | U_roleId x => set_roleId x
  | U_experienceId x => set_experienceId x
  | U_expectedSalary x => set_expectedSalary x
  end.

(** [onChange] of a [Controller], with the renders and effects that the
    new value brings about. *)
Definition setField (u : Update) (s : Form) : Form :=
  render (setValues (write u (values s)) s).

(** The [disabled] prop of the two dependent dropdowns. *)
Definition cityDisabled (s : Form) : bool :=
  negb (truthy (countryId (values s)))
  || (length (availableCities s) =? 0)%nat.

Definition roleDisabled (s : Form) : bool :=
  negb (truthy (industryId (values s)))
  || (length (availableRoles s) =? 0)%nat.

(** A dropdown hands [onSelect] the id of one of its options, and opens
    only when it is not disabled; the other controls accept any value of
    their type. *)
Definition offered (s : Form) (u : Update) : bool :=
  match u with
  | U_cityId x =>
      negb (cityDisabled s) && existsb (fun c => id c =? x) (availableCities s)
  | U_roleId x =>
      negb (roleDisabled s)
      && existsb (fun r => role_id r =? x) (availableRoles s)
  | _ => true
  end.

(** The step whose view holds the control. *)
Definition stepOf (u : Update) : Z :=
  match u with
  | U_firstName _ | U_lastName _ | U_email _ | U_phone _ => 1
  | U_countryId _ | U_cityId _ | U_address _ | U_postalCode _ => 2
  | U_industryId _ | U_roleId _ | U_experienceId _ | U_expectedSalary _ => 3
  end.

Definition salaryError (s : Form) : option SalaryError :=
  match selectedRole s with
  | Some role =>
      let watchSalary := expectedSalary (values s) in
      if truthy watchSalary && (watchSalary <? minSalary role)
      then Some {| for_role := role_name role; minimum := minSalary role |}
      else None
  | None => None
  end.

Definition handleSaveDraft (s : Form) : FieldValues :=
  let currentValues := values s in
  spread (formData s) currentValues.

Inductive NextResult :=
| Blocked (errors : list Issue) (shown : Alert)
| Advanced.

Inductive SubmitResult :=
| Invalid (errors : list Issue)
| Refused (shown : Alert)
| Submitted (finalData : FieldValues).

Definition handlePrevious (s : Form) : Form :=
  let currentValues := values s in
  render (setStep (step s - 1)
            (setFormData (spread (formData s) currentValues) s)).

Section Validated.
Variable isEmail : jsstring -> bool.

Definition getStepSchema (step : Z) : FieldValues -> list Issue :=
  match step with
  | 1 => personalInfoSchema isEmail
  | 2 => locationSchema
  | 3 => professionalInfoSchema
  | _ => personalInfoSchema isEmail
  end.

(** [trigger()]: the resolver of the current step, run on the values. *)
Definition trigger (s : Form) : list Issue :=
  getStepSchema (step s) (values s).

Definition handleNext (s : Form) : Form * NextResult :=
  let errors := trigger s in
  match errors with
  | _ :: _ => (s, Blocked errors PleaseFixErrors)
  | [] =>
      let currentValues := values s in
      (render (setStep (step s + 1)
                 (setFormData (spread (formData s) currentValues) s)),
       Advanced)
  end.

(** The object a schema returns on success holds the keys of the schema
    only; [{ ...formData, ...data }] overwrites those. *)
Definition overlay (step : Z) (formData data : FieldValues) : FieldValues :=
  match step with
  | 2 =>
      set_countryId (countryId data)
        (set_cityId (cityId data)
           (set_address (address data)
              (set_postalCode (postalCode data) formData)))
  | 3 =>
      set_industryId (industryId data)
        (set_roleId (roleId data)
           (set_experienceId (experienceId data)
              (set_expectedSalary (expectedSalary data) formData)))
  | _ =>
      set_firstName (firstName data)
        (set_lastName (lastName data)
           (set_email (email data)
              (set_phone (phone data) formData)))
  end.

Definition handleFinalSubmit (s : Form) : SubmitResult :=
  match salaryError s with
  | Some e => Refused (SalaryAlert e)
  | None => Submitted (overlay (step s) (formData s) (values s))
  end.

(** [handleSubmit(handleFinalSubmit)]: the resolver first, the handler
    only when it reports nothing. *)
Definition submit (s : Form) : SubmitResult :=
  match trigger s with
  | (_ :: _) as errors => Invalid errors
  | [] => handleFinalSubmit s
  end.

(** *** What a user can do *)

Inductive Event :=
| Change (u : Update)
| Next
| Previous.

Definition perform (e : Event) (s : Form) : Form :=
  match e with
  | Change u => setField u s
  | Next => fst (handleNext s)
  | Previous => handlePrevious s
  end.

(** Calls in which the dependent fields are chosen among their options. *)
Definition wellTyped (s : Form) (e : Event) : bool :=
  match e with
  | Change u => offered s u
  | _ => true
  end.

(** The controls on screen: the fields of the current step, Previous
    after the first step, Next before the third. *)
Definition onScreen (s : Form) (e : Event) : bool :=
  match e with
  | Change u => offered s u && (stepOf u =? step s)
  | Next => step s <? 3
  | Previous => 1 <? step s
  end.

Inductive reachable (gate : Form -> Event -> bool) : Form -> Prop :=
| reach_mount (initial : FieldValues) : reachable gate (mount initial)
| reach_perform (s : Form) (e : Event) :
    reachable gate s -> gate s e = true -> reachable gate (perform e s).
End Validated.

(** An applicant who fills in every step: a software engineer (minimum
    salary 80000) who expects 75000. *)
Definition applicant : FieldValues :=
  {| firstName := lit "Ada"; lastName := lit "Lovelace";
     email := lit "ada@example.com"; phone := lit "+1 (555) 123-4567";
     countryId := 1; cityId := 101; address := lit "12 Main Street";
     postalCode := lit "10001"; industryId := 1; roleId := 101;
     experienceId := 3; expectedSalary := 75000 |}.

(** *** The vocabulary of the specification *)

(** The allowed-option set of a parent value, computed afresh: the entry of
    the table, the empty list for a value the table does not know or that
    selects nothing. *)
Definition allowedCities (country : Z) : list Option_ :=
  if truthy country && (0 <? country)
  then default [] (citiesByCountry country) else [].

Definition allowedRoles (industry : Z) : list Role :=
  if truthy industry && (0 <? industry)
  then default [] (rolesByIndustry industry) else [].

(** A dependent value under a parent: kept when it is one of the parent's
    options, unset (0) otherwise. *)
Definition keepCity (country city : Z) : Z :=
  if existsb (fun c => id c =? city) (allowedCities country) then city else 0.

Definition keepRole (industry role : Z) : Z :=
  if existsb (fun r => role_id r =? role) (allowedRoles industry)
  then role else 0.

(** The role record behind a role value. *)
Definition lookupRole (role : Z) (roles : list Role) : option Role :=
  if truthy role && (0 <? role)
  then find (fun r => role_id r =? role) roles else None.

(** A dependent field is unset or holds one of the options computed afresh
    from its parent. *)
Definition cityAllowed (s : Form) : Prop :=
  cityId (values s) = 0
  \/ In (cityId (values s)) (List.map id (allowedCities (countryId (values s)))).

Definition roleAllowed (s : Form) : Prop :=
  roleId (values s) = 0
  \/ In (roleId (values s))
       (List.map role_id (allowedRoles (industryId (values s)))).

(** The state between two events: nothing is left to render, the option
    lists are those of the parents, the dependents are allowed, and the
    selected role is the record of the role value. *)
Record consistent (s : Form) : Prop := {
  is_settled : pending s = false;
  cities_fresh : availableCities s = allowedCities (countryId (values s));
  roles_fresh : availableRoles s = allowedRoles (industryId (values s));
  city_allowed : cityAllowed s;
  role_allowed : roleAllowed s;
  role_selected :
    selectedRole s = lookupRole (roleId (values s)) (availableRoles s)
}.

(** The same, for a state whose effects have not run yet: each part is
    asked only where the dependencies of its effect are unchanged. *)
Definition preconsistent (s : Form) : Prop :=
  match committed s with
  | None => True
  | Some before =>
      (watchCountry before = countryId (values s) ->
       availableCities s = allowedCities (countryId (values s))
       /\ cityAllowed s)
      /\ (watchIndustry before = industryId (values s) ->
          availableRoles s = allowedRoles (industryId (values s))
          /\ roleAllowed s)
      /\ (watchRole before = roleId (values s) ->
          rolesSeen before = availableRoles s ->
          selectedRole s = lookupRole (roleId (values s)) (availableRoles s))
  end.

(** Whether the effects of a render are due. *)
Definition changedCountry (s : Form) : bool :=
  match committed s with
  | None => true
  | Some before => negb (watchCountry before =? countryId (values s))
  end.

Definition changedIndustry (s : Form) : bool :=
  match committed s with
  | None => true
  | Some before => negb (watchIndustry before =? industryId (values s))
  end.

Definition changedRole (s : Form) : bool :=
  match committed s with
  | None => true
  | Some before =>
      negb (watchRole before =? roleId (values s))
      || negb (roles_eqb (rolesSeen before) (availableRoles s))
  end.

(** Every step before the current one passes its schema. *)
Definition validatedBelow (isEmail : jsstring -> bool) (s : Form) : Prop :=
  forall j, 1 <= j < step s -> getStepSchema isEmail j (values s) = [].

End JobApplicationForm.

(** ** App.js: the drafts collection *)

Module App.
Import JS MockData Validation.

(** A saved draft: the form's data, then [id], [status] and [savedAt].
    [savedAt] is kept as the instant (milliseconds) that [toISOString]
    prints. *)
Record Draft := {
  data : FieldValues;
  draft_id : Z;
  status : jsstring;
  savedAt : Z
}.

Inductive Screen := list_view | form_view.

(** The state of the application, with the clock that [Date.now()] and
    [new Date()] read. *)
Record State := {
  view : Screen;
  editingApplication : option Application;
  savedDrafts : list Draft;
  clock : Z
}.

Definition initial (clock0 : Z) : State :=
  {| view := list_view; editingApplication := None; savedDrafts := [];
     clock := clock0 |}.

(** Time passes: the clock moves forward by a number of milliseconds. *)
Definition elapse (ms : N) (s : State) : State :=
  {| view := view s; editingApplication := editingApplication s;
     savedDrafts := savedDrafts s; clock := clock s + Z.of_N ms |}.

(** [editingApplication?.id || Date.now()] *)
Definition draftId (s : State) : Z :=
  match editingApplication s with
  | Some app => if truthy (app_id app) then app_id app else clock s
  | None => clock s
  end.

(** The object [draft] of [handleSaveDraft]; [between] is the time that
    passes from reading the clock for [id] to reading it for [savedAt]. *)
Definition makeDraft (d : FieldValues) (between : N) (s : State) : Draft :=
  {| data := d;
     draft_id := draftId s;
     status := lit "draft";
     savedAt := clock (elapse between s) |}.

(** The updater handed to [setSavedDrafts]. *)
Definition upsert (draft : Draft) (prev : list Draft) : list Draft :=
  let existingIndex :=
    findIndex (fun d => draft_id d =? draft_id draft) prev in
  if 0 <=? existingIndex
  then <[Z.to_nat existingIndex := draft]> prev
  else prev ++ [draft].

Definition handleSaveDraft (d : FieldValues) (between : N) (s : State)
  : State :=
  let draft := makeDraft d between s in
  let s' := elapse between s in
  {| view := view s'; editingApplication := editingApplication s';
     savedDrafts := upsert draft (savedDrafts s'); clock := clock s' |}.

Definition handleEditApplication (application : Application) (s : State)
  : State :=
  {| view := form_view; editingApplication := Some application;
     savedDrafts := savedDrafts s; clock := clock s |}.

(** The button "New Application". *)
Definition newApplication (s : State) : State :=
  {| view := form_view; editingApplication := None;
     savedDrafts := savedDrafts s; clock := clock s |}.

Definition handleSubmitApplication (d : FieldValues) (s : State) : State :=
  {| view := list_view; editingApplication := None;
     savedDrafts := savedDrafts s; clock := clock s |}.

Inductive Event :=
| SaveDraft (d : FieldValues) (between : N)
| Edit (application : Application)
| New
| Submit (d : FieldValues)
| Wait (ms : N).

Definition perform (e : Event) (s : State) : State :=
  match e with
  | SaveDraft d between => handleSaveDraft d between s
  | Edit application => handleEditApplication application s
  | New => newApplication s
  | Submit d => handleSubmitApplication d s
  | Wait ms => elapse ms s
  end.

Definition run (events : list Event) (s : State) : State :=
  fold_left (fun s e => perform e s) events s.

(** The identifiers of a collection of drafts, in order. *)
Definition ids (drafts : list Draft) : list Z := List.map draft_id drafts.

End App.

(** ** ApplicationsList.js: the pagination controls and the footer *)

Module Pagination.
Import JS MockData ApplicationsList.

Definition setCurrentPage (page : Z) (v : View) : View :=
  {| currentPage := page; itemsPerPage := itemsPerPage v;
     sortField := sortField v; sortDirection := sortDirection v;
     filterStatus := filterStatus v |}.

(** [onPress] of the button Previous. *)
Definition pressPrevious (v : View) : View :=
  setCurrentPage (Z.max 1 (currentPage v - 1)) v.

(** [onPress] of the button Next. *)
Definition pressNext (totalPages : Z) (v : View) : View :=
  setCurrentPage (Z.min totalPages (currentPage v + 1)) v.

(** [onPress] of the page number built from [index]. *)
Definition pressPage (index : Z) (v : View) : View :=
  setCurrentPage (index + 1) v.

(** The two bounds of the footer "Showing a - b of n". *)
Definition showingFrom (v : View) : Z :=
  (currentPage v - 1) * itemsPerPage v + 1.

Definition showingTo (v : View) (length : Z) : Z :=
  Z.min (currentPage v * itemsPerPage v) length.

Section Screen.
Variable H : Host.
Variable applications : list Application.

Inductive Event :=
| Filter (status : jsstring)
| Sort (field : Key)
| Previous
| Next
| Page (index : Z).

Definition perform (e : Event) (v : View) : View :=
  match e with
  | Filter status => setFilter status v
  | Sort field => handleSort field v
  | Previous => pressPrevious v
  | Next => pressNext (totalPages H v applications) v
  | Page index => pressPage index v
  end.

(** The pagination controls are rendered when there is more than one page:
    Previous is disabled on page 1, Next on the last page, and there is one
    page number for every index below [totalPages]. *)
Definition onScreen (v : View) (e : Event) : bool :=
  match e with
  | Filter _ | Sort _ => true
  | Previous =>
      (1 <? totalPages H v applications) && negb (currentPage v =? 1)
  | Next =>
      (1 <? totalPages H v applications)
      && negb (currentPage v =? totalPages H v applications)
  | Page index =>
      (1 <? totalPages H v applications)
      && (0 <=? index) && (index <? totalPages H v applications)
  end.

Inductive reachable : View -> Prop :=
| reach_initial : reachable initial
| reach_perform (v : View) (e : Event) :
    reachable v -> onScreen v e = true -> reachable (perform e v).
End Screen.

(** The pages 1, 2, ..., [n]. *)
Definition pages (n : Z) : list Z :=
  List.map (fun i => Z.of_nat i + 1) (seq 0 (Z.to_nat n)).

End Pagination.

(** ** useResponsive.js and the layout choice of ApplicationsListResponsive.js

    A width is a finite number, kept as a rational. *)

Module Responsive.

Definition Q := QArith_base.Q.

Record Breakpoints := { mobile : Z; tablet : Z; desktop : Z; wide : Z }.

Definition BREAKPOINTS : Breakpoints :=
  {| mobile := 0; tablet := 768; desktop := 1024; wide := 1440 |}.

(** [width >= b] and [width < b]. *)
Definition geb (width : Q) (b : Z) : bool :=
  QArith_base.Qle_bool (QArith_base.inject_Z b) width.

Definition ltb (width : Q) (b : Z) : bool := negb (geb width b).

Record Screen := {
  width : Q;
  height : Q;
  isMobile : bool;
  isTablet : bool;
  isDesktop : bool;
  isWide : bool
}.

(** What the hook returns for the dimensions of the window. *)
Definition useResponsive (window_width window_height : Q) : Screen :=
  {| width := window_width;
     height := window_height;
     isMobile := ltb window_width (tablet BREAKPOINTS);
     isTablet := geb window_width (tablet BREAKPOINTS)
                 && ltb window_width (desktop BREAKPOINTS);
     isDesktop := geb window_width (desktop BREAKPOINTS);
     isWide := geb window_width (wide BREAKPOINTS) |}.

(** The helper [responsive(mobile, tablet, desktop)] of the hook. *)
Definition responsive {A} (window_width : Q) (mobile tablet desktop : A) : A :=
  if geb window_width (Responsive.desktop BREAKPOINTS) then desktop
  else if geb window_width (Responsive.tablet BREAKPOINTS) then tablet
  else mobile.

Inductive Layout := MobileCard | TabletRow | DesktopRow.

(** [isMobile ? renderMobileCard : (isTablet ? renderTabletRow :
    renderDesktopRow)] *)
Definition renderItem (s : Screen) : Layout :=
  if isMobile s then MobileCard
  else if isTablet s then TabletRow else DesktopRow.

(** The columns whose header sorts the list, by layout: none for the cards,
    four on a tablet, seven on a desktop. *)
Definition sortableColumns (s : Screen) : list ApplicationsList.Key :=
  if isMobile s then []
  else
    (if isDesktop s
     then [ApplicationsList.Kid; ApplicationsList.KfirstName;
           ApplicationsList.Kemail; ApplicationsList.Kcountry;
           ApplicationsList.Krole; ApplicationsList.Ksalary;
           ApplicationsList.Kstatus]
     else [])
    ++ (if isTablet s
        then [ApplicationsList.KfirstName; ApplicationsList.Kemail;
              ApplicationsList.Krole; ApplicationsList.Kstatus]
        else []).

End Responsive.

(** ** CustomDropdown.js and the controls of JobApplicationForm.js *)

Module Controls.
Import JS MockData Validation JobApplicationForm.

Section Dropdown.
Context {A : Type}.
Variable id : A -> Z.
Variable name : A -> jsstring.



(** [onPress] of the button: [!disabled && setIsOpen(true)]. *)
Definition pressButton (disabled isOpen : bool) : bool :=
  if negb disabled then true else isOpen.

(** [handleSelect(option)]: the value handed to [onSelect], and [isOpen]. *)
Definition handleSelect (option : A) : Z * bool := (id option, false).

(** What the dropdown can hand to [onSelect]: the list opens when the
    button is pressed while the dropdown is not disabled, and the item
    pressed goes through [handleSelect]. *)
Definition selects (disabled : bool) (options : list A) (x : Z) : bool :=
  pressButton disabled false
  && existsb (fun option => fst (handleSelect option) =? x) options.
End Dropdown.

(** The calls of [setField] that the screen can issue for the two
    dependent fields: each receives what its dropdown hands over.  The
    other fields receive any value of their type. *)
Definition viaDropdown (s : Form) (e : Event) : bool :=
  match e with
  | Change (U_cityId x) =>
      selects MockData.id (cityDisabled s) (availableCities s) x
  | Change (U_roleId x) =>
      selects role_id (roleDisabled s) (availableRoles s) x
  | _ => true
  end.





End Controls.

(** * Properties *)

(** ** Built-ins *)

Lemma eqb_eq (a b : JS.jsstring) : JS.eqb a b = true <-> a = b.
Proof.
  revert b; induction a as [|x a IH]; intros [|y b]; simpl; split;
    try congruence; try discriminate.
  - intros [Hxy Hab]%andb_true_iff. apply N.eqb_eq in Hxy.
    apply IH in Hab. congruence.
  - intros [= -> ->]. rewrite N.eqb_refl. simpl. now apply IH.
Qed.

Lemma ltb_irrefl (a : JS.jsstring) : JS.ltb a a = false.
Proof.
  induction a as [|x a IH]; simpl; [reflexivity|].
  now rewrite N.ltb_irrefl.
Qed.

Lemma slice_nil {A} (start end_ : Z) : JS.slice start end_ (@nil A) = [].
Proof. unfold JS.slice. now rewrite drop_nil, take_nil. Qed.

(** [Math.ceil(a / b)] is the least integer [c] with [a <= b * c]. *)
Lemma Math_ceil_div_spec (a b : Z) :
  0 < b ->
  b * (JS.Math_ceil_div a b - 1) < a <= b * JS.Math_ceil_div a b.
Proof.
  intros Hb. destruct b as [|p|p]; try lia.
  unfold JS.Math_ceil_div, Qround.Qceiling, Qround.Qfloor.
  cbn [QArith_base.Qdiv QArith_base.inject_Z QArith_base.Qinv
       QArith_base.Qmult QArith_base.Qopp QArith_base.Qnum QArith_base.Qden].
  rewrite Z.mul_1_r, Pos.mul_1_l.
  pose proof (Z.div_mod (- a) (Z.pos p) ltac:(lia)) as Hdm.
  pose proof (Z.mod_pos_bound (- a) (Z.pos p) ltac:(lia)) as Hm.
  nia.
Qed.

Lemma Math_ceil_div_0 (b : Z) : JS.Math_ceil_div 0 b = 0.
Proof.
  unfold JS.Math_ceil_div, Qround.Qceiling, Qround.Qfloor.
  destruct b; reflexivity.
Qed.

(** ** The sort of V8 returns the elements it was given *)

Lemma run_rest_app {A} (cmp : A -> A -> Z) (d : bool) (l : list A) (prev : A) :
  fst (V8.run_rest cmp d prev l) ++ snd (V8.run_rest cmp d prev l) = l.
Proof.
  revert prev; induction l as [|x l IH]; intros prev; simpl; [reflexivity|].
  destruct (if d then 0 <=? cmp x prev else cmp x prev <? 0); simpl;
    [reflexivity|].
  specialize (IH x). destruct (V8.run_rest cmp d x l) as [run others].
  simpl in *. now f_equal.
Qed.

Lemma CountAndMakeRun_perm {A} (cmp : A -> A -> Z) (l : list A) :
  Permutation (fst (V8.CountAndMakeRun cmp l) ++ snd (V8.CountAndMakeRun cmp l)) l.
Proof.
  destruct l as [|low [|high rest]]; simpl; try reflexivity.
  pose proof (run_rest_app cmp (cmp high low <? 0) rest high) as Happ.
  destruct (V8.run_rest cmp (cmp high low <? 0) high rest) as [run others].
  simpl in *. subst rest.
  destruct (cmp high low <? 0); simpl; [|reflexivity].
  change (low :: high :: run ++ others) with ((low :: high :: run) ++ others).
  apply Permutation_app_tail. symmetry.
  apply (Permutation_rev (low :: high :: run)).
Qed.

Lemma place_perm {A} (cmp : A -> A -> Z) (sorted : list A) (pivot : A) :
  Permutation (V8.place cmp sorted pivot) (pivot :: sorted).
Proof.
  unfold V8.place.
  set (n := V8.search cmp _ pivot sorted 0%nat (length sorted)).
  rewrite <- (take_drop n sorted) at 3.
  symmetry. apply Permutation_middle.
Qed.

Lemma BinaryInsertionSort_perm {A} (cmp : A -> A -> Z) (others run : list A) :
  Permutation (V8.BinaryInsertionSort cmp run others) (run ++ others).
Proof.
  unfold V8.BinaryInsertionSort.
  revert run; induction others as [|x others IH]; intros run; simpl.
  - now rewrite app_nil_r.
  - rewrite IH, place_perm. apply Permutation_middle.
Qed.

Lemma V8_rearranges : JS.rearranges V8.host.
Proof.
  intros A cmp l. simpl. unfold V8.sort.
  destruct (length l <? 2)%nat; [reflexivity|].
  pose proof (CountAndMakeRun_perm cmp l) as Hrun.
  destruct (V8.CountAndMakeRun cmp l) as [run others]. simpl in Hrun.
  now rewrite BinaryInsertionSort_perm.
Qed.

Lemma V8_sort_all_negative {A} (cmp : A -> A -> Z) (l : list A) :
  (forall x y, In x l -> In y l -> cmp x y < 0) ->
  V8.sort cmp l = rev l.
Proof.
  intros Hneg. unfold V8.sort.
  destruct l as [|low [|high rest]]; try reflexivity.
  cbn [length Nat.ltb Nat.leb V8.CountAndMakeRun].
  assert (Hd : (cmp high low <? 0) = true)
    by (apply Z.ltb_lt, Hneg; simpl; auto).
  rewrite Hd.
  assert (Hrun : forall l' prev, In prev (low :: high :: rest) ->
             incl l' (low :: high :: rest) ->
             V8.run_rest cmp true prev l' = (l', [])).
  { induction l' as [|x l' IH]; intros prev Hprev Hincl; simpl; [reflexivity|].
    assert (Hx : In x (low :: high :: rest)) by (apply Hincl; simpl; auto).
    pose proof (Hneg x prev Hx Hprev) as Hlt.
    destruct (0 <=? cmp x prev) eqn:E; [apply Z.leb_le in E; lia|].
    rewrite (IH x Hx); [reflexivity|].
    intros y Hy. apply Hincl. simpl; auto. }
  rewrite (Hrun rest high); [reflexivity|simpl; auto|].
  intros y Hy. simpl; auto.
Qed.

(** ** The list view engine *)

Section ListView.
Import JS MockData ApplicationsList.

Lemma Key_eqb_eq (a b : Key) : Key_eqb a b = true <-> a = b.
Proof. destruct a, b; simpl; split; congruence. Qed.

Lemma prop_same_type (field : Key) (a b : Application) :
  match prop field a, prop field b with
  | Str _, Str _ | Num _, Num _ => True
  | _, _ => False
  end.
Proof. destruct field; exact I. Qed.

Lemma comparator_sortKey (H : Host) (field : Key) (d : Direction)
  (a b : Application) :
  comparator H field d a b =
  match d with
  | asc => if Value_gtb (sortKey H field a) (sortKey H field b) then 1 else -1
  | desc => if Value_ltb (sortKey H field a) (sortKey H field b) then 1 else -1
  end.
Proof.
  unfold comparator, sortKey. pose proof (prop_same_type field a b) as Ht.
  destruct (prop field a), (prop field b); try contradiction; reflexivity.
Qed.

(** The comparator sees strings through [toLowerCase] only: records whose
    keys differ in case alone are interchangeable for it. *)
Lemma comparator_case_insensitive (H : Host) (field : Key) (d : Direction)
  (a a' b b' : Application) :
  sortKey H field a = sortKey H field a' ->
  sortKey H field b = sortKey H field b' ->
  comparator H field d a b = comparator H field d a' b'.
Proof. intros Ha Hb. rewrite !comparator_sortKey. now rewrite Ha, Hb. Qed.

(** The comparator answers 1 or -1, never 0. *)
Lemma comparator_never_zero (H : Host) (field : Key) (d : Direction)
  (a b : Application) :
  comparator H field d a b = 1 \/ comparator H field d a b = -1.
Proof.
  rewrite comparator_sortKey.
  destruct d; [destruct (Value_gtb _ _)|destruct (Value_ltb _ _)]; auto.
Qed.

(** On equal keys it answers -1 whichever record comes first. *)
Lemma comparator_tie (H : Host) (field : Key) (d : Direction)
  (a b : Application) :
  sortKey H field a = sortKey H field b ->
  comparator H field d a b = -1 /\ comparator H field d b a = -1.
Proof.
  intros Hk. rewrite !comparator_sortKey, Hk.
  assert (Hgt : Value_gtb (sortKey H field b) (sortKey H field b) = false).
  { destruct (sortKey H field b); simpl;
      [apply Z.ltb_irrefl|apply ltb_irrefl]. }
  assert (Hlt : Value_ltb (sortKey H field b) (sortKey H field b) = false).
  { destruct (sortKey H field b); simpl;
      [apply Z.ltb_irrefl|apply ltb_irrefl]. }
  destruct d; rewrite ?Hgt, ?Hlt; auto.
Qed.

(** Records that all share their key leave V8's sort in reverse order. *)
Lemma V8_reverses_ties (field : Key) (d : Direction) (l : list Application) :
  (forall a b, In a l -> In b l ->
               sortKey V8.host field a = sortKey V8.host field b) ->
  Array_sort V8.host Application (comparator V8.host field d) l = rev l.
Proof.
  intros Hties. simpl. apply V8_sort_all_negative.
  intros x y Hx Hy.
  destruct (comparator_tie V8.host field d x y (Hties x y Hx Hy)) as [-> _].
  lia.
Qed.

Lemma sorted_length (H : Host) (v : View) (applications : list Application) :
  rearranges H ->
  length (sortedAndFilteredData H v applications)
  = length (filtered v applications).
Proof. intros Hperm. apply Permutation_length, Hperm. Qed.

(** C1, as the code has it: the number of pages is the ceiling of the
    filtered count over the page size, with no lower bound of one.  When
    the filter matches no record there are 0 pages and the visible slice
    is empty. *)
Theorem derive_pages_unfloored (H : Host) (v : View)
  (applications : list Application) :
  rearranges H ->
  0 < itemsPerPage v ->
  (filtered v applications = [] ->
   totalPages H v applications = 0 /\ paginatedData H v applications = [])
  /\ itemsPerPage v * (totalPages H v applications - 1)
     < Z.of_nat (length (filtered v applications))
     <= itemsPerPage v * totalPages H v applications.
Proof.
  intros Hperm Hsize. split.
  - intros Hnone.
    assert (Hs : sortedAndFilteredData H v applications = []).
    { apply Permutation_nil. symmetry.
      unfold sortedAndFilteredData. rewrite Hnone. apply Hperm. }
    unfold totalPages, paginatedData. rewrite Hs. simpl.
    split; [apply Math_ceil_div_0|apply slice_nil].
  - unfold totalPages. rewrite (sorted_length H v applications Hperm).
    now apply Math_ceil_div_spec.
Qed.

Lemma derive_pages_unfloored_witness :
  let v := setFilter (lit "draft") initial in
  totalPages V8.host v [john; robert; maria] = 0
  /\ paginatedData V8.host v [john; robert; maria] = [].
Proof.
  intros v.
  apply (derive_pages_unfloored V8.host v [john; robert; maria]
           V8_rearranges); [simpl; lia|reflexivity].
Defined.

(** C1, as stated, fails: three submitted applications filtered by
    "draft" give 0 pages, not 1. *)
Lemma derive_empty_filter_counterexample :
  let v := setFilter (lit "draft") initial in
  filtered v [john; robert; maria] = []
  /\ totalPages V8.host v [john; robert; maria] <> 1.
Proof. split; [reflexivity|vm_compute; discriminate]. Qed.

(** C4 at the application's own data: sorting the five mock applications
    by status, ascending, on V8.  The comparator answers -1 for two
    submitted applications in either order, and the sorted list holds the
    drafts and the submitted applications in the reverse of their
    collection order. *)
Theorem sort_by_status_reverses_ties :
  let v := handleSort Kstatus initial in
  sortField v = Kstatus /\ sortDirection v = asc
  /\ comparator V8.host Kstatus asc john robert = -1
  /\ comparator V8.host Kstatus asc robert john = -1
  /\ sortedAndFilteredData V8.host v mockApplications
     = [pierre; jane; maria; robert; john].
Proof. vm_compute. repeat split; reflexivity. Qed.

(** C9: a filter button sets the filter and the first page; a column
    header flips the direction of the active column, or selects the new
    column ascending, and leaves the page alone. *)
Theorem filter_resets_page_sort_keeps_page (v : View) (status : jsstring)
  (field : Key) :
  currentPage (setFilter status v) = 1
  /\ filterStatus (setFilter status v) = status
  /\ sortField (setFilter status v) = sortField v
  /\ sortDirection (setFilter status v) = sortDirection v
  /\ currentPage (handleSort field v) = currentPage v
  /\ filterStatus (handleSort field v) = filterStatus v
  /\ sortField (handleSort field v) = field
  /\ sortDirection (handleSort field v)
     = (if Key_eqb (sortField v) field
        then match sortDirection v with asc => desc | desc => asc end
        else asc).
Proof.
  unfold handleSort, setFilter.
  destruct (Key_eqb (sortField v) field) eqn:E; simpl; repeat split; auto.
  now apply Key_eqb_eq.
Qed.
(** The scenario of the specification: the five mock applications, page
    size 5, filter "all", sorted by salary ascending, come out on one page
    in ascending order of salary. *)
Theorem salary_ascending_scenario :
  let v := handleSort Ksalary initial in
  itemsPerPage v = 5 /\ filterStatus v = lit "all"
  /\ sortField v = Ksalary /\ sortDirection v = asc
  /\ List.map app_salary (paginatedData V8.host v mockApplications)
     = [62000; 78000; 85000; 120000; 145000]
  /\ totalPages V8.host v mockApplications = 1.
Proof. vm_compute. repeat split; reflexivity. Qed.

Lemma comparator_case_insensitive_witness :
  let shouting :=
    application 1 "JOHN" "Doe" "john.doe@example.com" "United States"
      "New York" "Technology" "Software Engineer" "Senior Level (6-10 years)"
      120000 "submitted" "2024-11-01T10:30:00Z" in
  comparator V8.host KfirstName asc shouting jane
  = comparator V8.host KfirstName asc john jane
  /\ comparator V8.host KfirstName asc john jane = 1.
Proof.
  intros shouting. split; [|reflexivity].
  apply (comparator_case_insensitive V8.host KfirstName asc shouting john
           jane jane); reflexivity.
Defined.
End ListView.

(** ** The drafts collection *)

Section Drafts.
Import JS MockData Validation App.

Lemma findIndex_from_found {A} (p : A -> bool) (l : list A) (i : Z) :
  0 <= i ->
  0 <= findIndex_from p l i ->
  exists (k : nat) (x : A),
    findIndex_from p l i = i + Z.of_nat k /\ l !! k = Some x /\ p x = true
    /\ forall j y, (j < k)%nat -> l !! j = Some y -> p y = false.
Proof.
  revert i; induction l as [|x l IH]; intros i Hi; simpl; [lia|].
  destruct (p x) eqn:Hp.
  - intros _. exists 0%nat, x. repeat split; auto; try lia.
  - intros Hge.
    destruct (IH (i + 1)) as (k & y & Hk & Hy & Hpy & Hfirst); [lia|lia|].
    exists (S k), y. repeat split; auto; try lia.
    intros [|j] z Hj Hz; simpl in Hz; [congruence|].
    apply (Hfirst j); [lia|exact Hz].
Qed.

Lemma findIndex_from_absent {A} (p : A -> bool) (l : list A) (i : Z) :
  0 <= i ->
  findIndex_from p l i < 0 -> forall x, In x l -> p x = false.
Proof.
  revert i; induction l as [|x l IH]; intros i Hi Hneg y Hy; simpl in *;
    [contradiction|].
  destruct (p x) eqn:Hp; [lia|].
  destruct Hy as [<-|Hy]; [exact Hp|]. apply (IH (i + 1)); auto; lia.
Qed.

Lemma findIndex_from_range {A} (p : A -> bool) (l : list A) (i : Z) :
  0 <= i ->
  findIndex_from p l i = -1 \/ i <= findIndex_from p l i.
Proof.
  revert i; induction l as [|x l IH]; intros i Hi; simpl; [auto|].
  destruct (p x); [right; lia|].
  destruct (IH (i + 1)) as [H|H]; [lia|auto|right; lia].
Qed.

(** What the updater does, by cases on the presence of the identifier. *)
Lemma upsert_cases (draft : Draft) (prev : list Draft) :
  (In (draft_id draft) (ids prev)
   /\ exists (k : nat) (old : Draft),
        prev !! k = Some old /\ draft_id old = draft_id draft
        /\ upsert draft prev = <[k := draft]> prev)
  \/ (~ In (draft_id draft) (ids prev) /\ upsert draft prev = prev ++ [draft]).
Proof.
  unfold upsert, findIndex.
  set (p := fun d => draft_id d =? draft_id draft).
  destruct (findIndex_from_range p prev 0 ltac:(lia)) as [Hnone|Hsome].
  - right. rewrite Hnone. simpl. split; [|reflexivity].
    intros Hin. apply in_map_iff in Hin as (x & Hx & Hin).
    pose proof (findIndex_from_absent p prev 0 ltac:(lia) ltac:(lia) x Hin) as Hp.
    unfold p in Hp. apply Z.eqb_neq in Hp. contradiction.
  - left.
    destruct (findIndex_from_found p prev 0 ltac:(lia) ltac:(lia))
      as (k & old & Hk & Hold & Hp & _).
    unfold p in Hp. apply Z.eqb_eq in Hp.
    split.
    + rewrite <- Hp. apply in_map. apply list_elem_of_In.
      eapply list_elem_of_lookup_2; eauto.
    + exists k, old. repeat split; auto.
      rewrite Hk. replace (0 <=? 0 + Z.of_nat k) with true
        by (symmetry; apply Z.leb_le; lia).
      f_equal. lia.
Qed.

Lemma ids_insert_same (draft old : Draft) (k : nat) (prev : list Draft) :
  prev !! k = Some old -> draft_id old = draft_id draft ->
  ids (<[k := draft]> prev) = ids prev.
Proof.
  revert k; induction prev as [|x prev IH]; intros [|k] Hk Hid;
    simpl in *; try discriminate.
  - congruence.
  - f_equal. now apply IH.
Qed.

Lemma upsert_NoDup (draft : Draft) (prev : list Draft) :
  NoDup (ids prev) -> NoDup (ids (upsert draft prev)).
Proof.
  intros Hnd.
  destruct (upsert_cases draft prev)
    as [(_ & k & old & Hk & Hid & ->)|(Hfresh & ->)].
  - now rewrite (ids_insert_same draft old k prev).
  - unfold ids in *. rewrite map_app. simpl.
    apply NoDup_app. repeat split; auto.
    + intros x Hx Hx'. apply list_elem_of_In in Hx, Hx'.
      destruct Hx' as [<-|[]]. now apply Hfresh.
    + apply NoDup_singleton.
Qed.

Lemma perform_NoDup (e : Event) (s : State) :
  NoDup (ids (savedDrafts s)) -> NoDup (ids (savedDrafts (perform e s))).
Proof.
  destruct e; simpl; auto. apply upsert_NoDup.
Qed.

Lemma run_NoDup (events : list Event) (s : State) :
  NoDup (ids (savedDrafts s)) -> NoDup (ids (savedDrafts (run events s))).
Proof.
  unfold run. revert s; induction events as [|e events IH]; intros s Hs;
    simpl; auto.
  apply IH. now apply perform_NoDup.
Qed.

(** C10: whatever happened before, the drafts hold one record per
    identifier, before and after a save; a save whose identifier is
    present overwrites the record at its position, the length unchanged,
    and a save whose identifier is absent appends its record. *)
Theorem drafts_one_record_per_id (events : list Event) (clock0 : Z)
  (d : FieldValues) (between : N) :
  let s := run events (initial clock0) in
  let draft := makeDraft d between s in
  let s' := handleSaveDraft d between s in
  NoDup (ids (savedDrafts s))
  /\ NoDup (ids (savedDrafts s'))
  /\ (In (draft_id draft) (ids (savedDrafts s)) ->
      length (savedDrafts s') = length (savedDrafts s)
      /\ ids (savedDrafts s') = ids (savedDrafts s)
      /\ exists (k : nat) (old : Draft),
           savedDrafts s !! k = Some old
           /\ draft_id old = draft_id draft
           /\ savedDrafts s' = <[k := draft]> (savedDrafts s))
  /\ (~ In (draft_id draft) (ids (savedDrafts s)) ->
      savedDrafts s' = savedDrafts s ++ [draft]).
Proof.
  intros s draft s'.
  assert (Hs : NoDup (ids (savedDrafts s))).
  { apply run_NoDup. simpl. constructor. }
  split; [exact Hs|]. split.
  { apply (perform_NoDup (SaveDraft d between) s Hs). }
  change (savedDrafts s') with (upsert draft (savedDrafts s)).
  destruct (upsert_cases draft (savedDrafts s))
    as [(Hin & k & old & Hk & Hid & Heq)|(Hfresh & Heq)].
  - split; [|contradiction]. intros _. rewrite Heq.
    split; [apply length_insert|].
    split; [now apply (ids_insert_same draft old)|].
    exists k, old. auto.
  - split; [contradiction|]. intros _. exact Heq.
Qed.
End Drafts.

Section SavingTwice.
Import JS MockData Validation App.



(** For a new application the identifier of each draft is the clock at
    the moment of the save; the stamps are ordered all the same. *)
Lemma saveDraft_twice_when_new (s : State) (d1 d2 : FieldValues)
  (between1 between2 wait : N) :
  editingApplication s = None ->
  let draft1 := makeDraft d1 between1 s in
  let s1 := handleSaveDraft d1 between1 s in
  let draft2 := makeDraft d2 between2 (elapse wait s1) in
  draft_id draft1 = clock s
  /\ draft_id draft2 = clock s + Z.of_N between1 + Z.of_N wait
  /\ savedAt draft1 <= savedAt draft2.
Proof.
  intros Hnew. unfold makeDraft, draftId; simpl. rewrite Hnew.
  repeat split; lia.
Qed.

End SavingTwice.

(** ** The form state controller *)

Section Cascade.
Import JS MockData Validation JobApplicationForm.

Lemma isSome_find {A} (p : A -> bool) (l : list A) :
  isSome (find p l) = existsb p l.
Proof.
  unfold find. induction l as [|x l IH]; simpl; [reflexivity|].
  destruct (p x); simpl; auto.
Qed.

Lemma existsb_In_ids {A} (key : A -> Z) (l : list A) (x : Z) :
  existsb (fun a => key a =? x) l = true <-> In x (List.map key l).
Proof.
  rewrite existsb_exists, in_map_iff. split.
  - intros (a & Ha & Hx). apply Z.eqb_eq in Hx. eauto.
  - intros (a & Hx & Ha). exists a. split; [exact Ha|now apply Z.eqb_eq].
Qed.

Lemma Role_eqb_eq (a b : Role) : Role_eqb a b = true <-> a = b.
Proof.
  unfold Role_eqb. destruct a as [i n m], b as [i' n' m']; simpl.
  rewrite !andb_true_iff, !Z.eqb_eq, eqb_eq. split.
  - intros [[-> ->] ->]. reflexivity.
  - intros [= -> -> ->]. auto.
Qed.

Lemma roles_eqb_eq (a b : list Role) : roles_eqb a b = true <-> a = b.
Proof.
  revert b; induction a as [|x a IH]; intros [|y b]; simpl; split;
    try congruence; try discriminate.
  - intros [Hxy Hab]%andb_true_iff. apply Role_eqb_eq in Hxy.
    apply IH in Hab. congruence.
  - intros [= -> ->]. apply andb_true_iff. split;
      [now apply Role_eqb_eq|now apply IH].
Qed.

Lemma Deps_eqb_eq (a b : Deps) : Deps_eqb a b = true <-> a = b.
Proof.
  unfold Deps_eqb. destruct a as [c i r l], b as [c' i' r' l']; simpl.
  rewrite !andb_true_iff, !Z.eqb_eq, roles_eqb_eq. split.
  - intros [[[-> ->] ->] ->]. reflexivity.
  - intros [= -> -> -> ->]. auto.
Qed.

Lemma settled_committed (s : Form) :
  pending s = false <-> committed s = Some (watched s).
Proof.
  unfold pending. destruct (committed s) as [before|]; split;
    try discriminate.
  - intros H. apply negb_false_iff, Deps_eqb_eq in H. now subst.
  - intros [= ->]. apply negb_false_iff, Deps_eqb_eq. reflexivity.
Qed.

(** *** The effects, in closed form *)

Lemma countryEffect_shape (w : Z) (s : Form) :
  countryEffect w s
  = setValue (set_cityId (keepCity w (cityId (values s))))
      (setAvailableCities (allowedCities w) s).
Proof.
  unfold countryEffect, keepCity, allowedCities.
  destruct (truthy w && (0 <? w)); [|reflexivity].
  cbn [values setAvailableCities].
  rewrite isSome_find.
  destruct (existsb _ _); simpl.
  - destruct s as [st fd [] ac ar sr cm]; reflexivity.
  - destruct (cityId (values s) =? 0) eqn:E; simpl; [|reflexivity].
    apply Z.eqb_eq in E. destruct s as [st fd [] ac ar sr cm]; simpl in *.
    subst. reflexivity.
Qed.

(** Whether the second effect leaves [selectedRole] as it is. *)
Lemma industryEffect_shape (w : Z) (s : Form) :
  industryEffect w s
  = setSelectedRole
      (if truthy w && (0 <? w)
          && (existsb (fun r => role_id r =? roleId (values s)) (allowedRoles w)
              || (roleId (values s) =? 0))
       then selectedRole s else None)
      (setValue (set_roleId (keepRole w (roleId (values s))))
         (setAvailableRoles (allowedRoles w) s)).
Proof.
  unfold industryEffect, keepRole, allowedRoles.
  destruct (truthy w && (0 <? w)); [|reflexivity].
  cbn [values setAvailableRoles].
  rewrite isSome_find.
  destruct (existsb _ _); simpl.
  - destruct s as [st fd [] ac ar sr cm]; reflexivity.
  - destruct (roleId (values s) =? 0) eqn:E; simpl; [|reflexivity].
    apply Z.eqb_eq in E. destruct s as [st fd [] ac ar sr cm]; simpl in *.
    subst. reflexivity.
Qed.

Lemma commit_shape (s : Form) :
  commit s
  = setCommitted (Some (watched s))
      ((if changedRole s
        then roleEffect (roleId (values s)) (availableRoles s) else fun x => x)
         ((if changedIndustry s
           then industryEffect (industryId (values s)) else fun x => x)
            ((if changedCountry s
              then countryEffect (countryId (values s)) else fun x => x) s))).
Proof.
  unfold commit, changedRole, changedIndustry, changedCountry.
  destruct (committed s) as [before|]; simpl; [|reflexivity].
  destruct (negb (watchCountry before =? _)),
           (negb (watchIndustry before =? _)),
           (negb (watchRole before =? _) || negb (roles_eqb _ _));
    reflexivity.
Qed.
Lemma roleEffect_shape (w : Z) (roles : list Role) (s : Form) :
  roleEffect w roles s = setSelectedRole (lookupRole w roles) s.
Proof.
  unfold roleEffect, lookupRole. now destruct (truthy w && (0 <? w)).
Qed.

Ltac commit_cases s :=
  rewrite (commit_shape s);
  destruct (changedRole s), (changedIndustry s), (changedCountry s);
  rewrite ?roleEffect_shape, ?industryEffect_shape, ?countryEffect_shape;
  try reflexivity.

Lemma commit_step (s : Form) : step (commit s) = step s.
Proof. commit_cases s. Qed.

Lemma commit_formData (s : Form) : formData (commit s) = formData s.
Proof. commit_cases s. Qed.

Lemma commit_committed (s : Form) : committed (commit s) = Some (watched s).
Proof. now rewrite commit_shape. Qed.

Lemma commit_values (s : Form) :
  values (commit s)
  = set_roleId
      (if changedIndustry s
       then keepRole (industryId (values s)) (roleId (values s))
       else roleId (values s))
      (set_cityId
         (if changedCountry s
          then keepCity (countryId (values s)) (cityId (values s))
          else cityId (values s))
         (values s)).
Proof. commit_cases s; destruct s as [st fd [] ac ar sr cm]; reflexivity. Qed.

Lemma commit_availableCities (s : Form) :
  availableCities (commit s)
  = if changedCountry s then allowedCities (countryId (values s))
    else availableCities s.
Proof. commit_cases s. Qed.

Lemma commit_availableRoles (s : Form) :
  availableRoles (commit s)
  = if changedIndustry s then allowedRoles (industryId (values s))
    else availableRoles s.
Proof. commit_cases s. Qed.

Lemma commit_selectedRole (s : Form) :
  selectedRole (commit s)
  = if changedRole s then lookupRole (roleId (values s)) (availableRoles s)
    else if changedIndustry s
         then if truthy (industryId (values s)) && (0 <? industryId (values s))
                 && (existsb (fun r => role_id r =? roleId (values s))
                       (allowedRoles (industryId (values s)))
                     || (roleId (values s) =? 0))
              then selectedRole s else None
         else selectedRole s.
Proof. commit_cases s. Qed.

(** The second render after a change runs the third effect at most, and
    leaves nothing to render. *)
Lemma commit_pending (s : Form) :
  pending (commit s)
  = negb ((roleId (values s) =? roleId (values (commit s)))
          && roles_eqb (availableRoles s) (availableRoles (commit s))).
Proof.
  unfold pending. rewrite commit_committed. unfold Deps_eqb, watched.
  cbn [watchCountry watchIndustry watchRole rolesSeen].
  rewrite (commit_values s). 
  destruct s as [st fd [] ac ar sr cm]; cbn.
  now rewrite !Z.eqb_refl.
Qed.

Lemma changed_after_commit (s : Form) :
  changedCountry (commit s) = false
  /\ changedIndustry (commit s) = false
  /\ changedRole (commit s) = pending (commit s).
Proof.
  unfold changedCountry, changedIndustry, changedRole.
  rewrite commit_pending, commit_committed.
  cbn [watchCountry watchIndustry watchRole rolesSeen watched].
  rewrite (commit_values s).
  destruct s as [st fd [] ac ar sr cm]; cbn.
  rewrite !Z.eqb_refl. repeat split.
  now rewrite negb_andb.
Qed.

Lemma commit_commit_settled (s : Form) : pending (commit (commit s)) = false.
Proof.
  destruct (changed_after_commit s) as (Hc & Hi & Hr).
  rewrite commit_pending, (commit_values (commit s)),
    (commit_availableRoles (commit s)), Hc, Hi.
  destruct (values (commit s)); cbn.
  rewrite Z.eqb_refl. apply negb_false_iff, andb_true_iff. split; auto.
  now apply roles_eqb_eq.
Qed.

Lemma render_cases (s : Form) :
  render s
  = if pending s
    then if pending (commit s) then commit (commit s) else commit s
    else s.
Proof.
  unfold render. simpl.
  destruct (pending s); [|reflexivity].
  destruct (pending (commit s)); [|reflexivity].
  now rewrite commit_commit_settled.
Qed.

(** Rendering always comes to rest. *)
Lemma render_settled (s : Form) : pending (render s) = false.
Proof.
  rewrite render_cases.
  destruct (pending s) eqn:E; [|exact E].
  destruct (pending (commit s)) eqn:E'; [|exact E'].
  apply commit_commit_settled.
Qed.

Lemma render_idle (s : Form) : pending s = false -> render s = s.
Proof. intros H. now rewrite render_cases, H. Qed.

Lemma render_step (s : Form) : step (render s) = step s.
Proof.
  rewrite render_cases.
  destruct (pending s); [|reflexivity].
  destruct (pending (commit s)); now rewrite ?commit_step.
Qed.

Lemma render_formData (s : Form) : formData (render s) = formData s.
Proof.
  rewrite render_cases.
  destruct (pending s); [|reflexivity].
  destruct (pending (commit s)); now rewrite ?commit_formData.
Qed.
Lemma settled_unchanged (s : Form) :
  pending s = false ->
  changedCountry s = false /\ changedIndustry s = false
  /\ changedRole s = false.
Proof.
  intros H. apply settled_committed in H.
  unfold changedCountry, changedIndustry, changedRole. rewrite H. simpl.
  rewrite !Z.eqb_refl. repeat split.
  apply orb_false_iff. split; [reflexivity|].
  apply negb_false_iff, roles_eqb_eq. reflexivity.
Qed.

Lemma set_same (v : FieldValues) :
  set_roleId (roleId v) (set_cityId (cityId v) v) = v.
Proof. now destruct v. Qed.

Lemma render_values (s : Form) :
  values (render s)
  = set_roleId
      (if changedIndustry s
       then keepRole (industryId (values s)) (roleId (values s))
       else roleId (values s))
      (set_cityId
         (if changedCountry s
          then keepCity (countryId (values s)) (cityId (values s))
          else cityId (values s))
         (values s)).
Proof.
  rewrite render_cases. destruct (pending s) eqn:E.
  - destruct (pending (commit s)).
    + destruct (changed_after_commit s) as (Hc & Hi & _).
      rewrite (commit_values (commit s)), Hc, Hi, set_same.
      apply commit_values.
    + apply commit_values.
  - destruct (settled_unchanged s E) as (-> & -> & _).
    now rewrite set_same.
Qed.

Lemma render_availableCities (s : Form) :
  availableCities (render s)
  = if changedCountry s then allowedCities (countryId (values s))
    else availableCities s.
Proof.
  rewrite render_cases. destruct (pending s) eqn:E.
  - destruct (pending (commit s)).
    + destruct (changed_after_commit s) as (Hc & _ & _).
      rewrite (commit_availableCities (commit s)), Hc.
      apply commit_availableCities.
    + apply commit_availableCities.
  - now destruct (settled_unchanged s E) as (-> & _ & _).
Qed.

Lemma render_availableRoles (s : Form) :
  availableRoles (render s)
  = if changedIndustry s then allowedRoles (industryId (values s))
    else availableRoles s.
Proof.
  rewrite render_cases. destruct (pending s) eqn:E.
  - destruct (pending (commit s)).
    + destruct (changed_after_commit s) as (_ & Hi & _).
      rewrite (commit_availableRoles (commit s)), Hi.
      apply commit_availableRoles.
    + apply commit_availableRoles.
  - now destruct (settled_unchanged s E) as (_ & -> & _).
Qed.

Lemma keepCity_cases (country city : Z) :
  keepCity country city = 0
  \/ (keepCity country city = city
      /\ In city (List.map id (allowedCities country))).
Proof.
  unfold keepCity. destruct (existsb _ _) eqn:E; [right|left; reflexivity].
  split; [reflexivity|now apply existsb_In_ids].
Qed.

Lemma keepRole_cases (industry role : Z) :
  keepRole industry role = 0
  \/ (keepRole industry role = role
      /\ In role (List.map role_id (allowedRoles industry))).
Proof.
  unfold keepRole. destruct (existsb _ _) eqn:E; [right|left; reflexivity].
  split; [reflexivity|now apply existsb_In_ids].
Qed.

Lemma keepCity_allowed (country city : Z) :
  city = 0 \/ In city (List.map id (allowedCities country)) ->
  keepCity country city = city.
Proof.
  unfold keepCity. intros [->|Hin].
  - now destruct (existsb _ _).
  - apply existsb_In_ids in Hin. now rewrite Hin.
Qed.

Lemma keepRole_allowed (industry role : Z) :
  role = 0 \/ In role (List.map role_id (allowedRoles industry)) ->
  keepRole industry role = role.
Proof.
  unfold keepRole. intros [->|Hin].
  - now destruct (existsb _ _).
  - apply existsb_In_ids in Hin. now rewrite Hin.
Qed.

Lemma changedCountry_false (s : Form) (before : Deps) :
  committed s = Some before -> changedCountry s = false ->
  watchCountry before = countryId (values s).
Proof.
  unfold changedCountry. intros -> H.
  now apply negb_false_iff, Z.eqb_eq in H.
Qed.

Lemma changedIndustry_false (s : Form) (before : Deps) :
  committed s = Some before -> changedIndustry s = false ->
  watchIndustry before = industryId (values s).
Proof.
  unfold changedIndustry. intros -> H.
  now apply negb_false_iff, Z.eqb_eq in H.
Qed.

Lemma changedRole_false (s : Form) (before : Deps) :
  committed s = Some before -> changedRole s = false ->
  watchRole before = roleId (values s)
  /\ rolesSeen before = availableRoles s.
Proof.
  unfold changedRole. intros -> H. apply orb_false_iff in H as [H1 H2].
  apply negb_false_iff in H1, H2. apply Z.eqb_eq in H1.
  apply roles_eqb_eq in H2. auto.
Qed.
Lemma lookupRole_unset (roles : list Role) : lookupRole 0 roles = None.
Proof. reflexivity. Qed.

Lemma render_selectedRole (s : Form) :
  preconsistent s ->
  selectedRole (render s)
  = lookupRole (roleId (values (render s))) (availableRoles (render s)).
Proof.
  intros Hpre. rewrite render_cases. destruct (pending s) eqn:E.
  - destruct (pending (commit s)) eqn:E'.
    + destruct (changed_after_commit s) as (Hc & Hi & Hr).
      rewrite (commit_selectedRole (commit s)), Hr, E'.
      rewrite (commit_values (commit s)), (commit_availableRoles (commit s)),
        Hc, Hi, set_same. reflexivity.
    + rewrite commit_pending in E'.
      apply negb_false_iff, andb_true_iff in E' as [Hrole Hroles].
      apply Z.eqb_eq in Hrole. apply roles_eqb_eq in Hroles.
      rewrite <- Hrole, <- Hroles, commit_selectedRole.
      destruct (changedRole s) eqn:Er; [reflexivity|].
      unfold preconsistent in Hpre.
      destruct (committed s) as [before|] eqn:Ec;
        [|unfold changedRole in Er; rewrite Ec in Er; discriminate].
      destruct (changedRole_false s before Ec Er) as [H1 H2].
      destruct Hpre as (_ & _ & Hsel). specialize (Hsel H1 H2).
      destruct (changedIndustry s) eqn:Ei; [|exact Hsel].
      rewrite commit_values, Ei in Hrole. 
      assert (Hkeep : roleId (values s)
                      = keepRole (industryId (values s)) (roleId (values s)))
        by (rewrite Hrole at 1; destruct (values s); reflexivity).
      destruct (truthy _ && (0 <? _)) eqn:Et; simpl.
      * destruct (existsb _ _) eqn:Ex; simpl; [exact Hsel|].
        destruct (roleId (values s) =? 0) eqn:Ez; [exact Hsel|].
        unfold keepRole in Hkeep. rewrite Ex in Hkeep.
        apply Z.eqb_neq in Ez. contradiction.
      * unfold keepRole, allowedRoles in Hkeep. rewrite Et in Hkeep.
        simpl in Hkeep. now rewrite Hkeep.
  - apply settled_committed in E. unfold preconsistent in Hpre.
    rewrite E in Hpre. destruct Hpre as (_ & _ & Hsel).
    now apply Hsel.
Qed.

(** The state after rendering is consistent, provided what the effects do
    not recompute was consistent before. *)
Lemma render_consistent (s : Form) : preconsistent s -> consistent (render s).
Proof.
  intros Hpre. constructor.
  - apply render_settled.
  - rewrite render_availableCities, render_values.
    destruct (changedCountry s) eqn:Ec.
    + destruct (values s); reflexivity.
    + unfold preconsistent in Hpre.
      destruct (committed s) as [before|] eqn:E;
        [|unfold changedCountry in Ec; rewrite E in Ec; discriminate].
      destruct Hpre as (Hcity & _ & _).
      destruct (Hcity (changedCountry_false s before E Ec)) as [-> _].
      destruct (values s); reflexivity.
  - rewrite render_availableRoles, render_values.
    destruct (changedIndustry s) eqn:Ei.
    + destruct (values s); reflexivity.
    + unfold preconsistent in Hpre.
      destruct (committed s) as [before|] eqn:E;
        [|unfold changedIndustry in Ei; rewrite E in Ei; discriminate].
      destruct Hpre as (_ & Hrole & _).
      destruct (Hrole (changedIndustry_false s before E Ei)) as [-> _].
      destruct (values s); reflexivity.
  - unfold cityAllowed. rewrite render_values.
    destruct (changedCountry s) eqn:Ec.
    + destruct (keepCity_cases (countryId (values s)) (cityId (values s)))
        as [H0|[Hk Hin]]; destruct (values s); cbn in *; rewrite ?H0, ?Hk; auto.
    + unfold preconsistent in Hpre.
      destruct (committed s) as [before|] eqn:E;
        [|unfold changedCountry in Ec; rewrite E in Ec; discriminate].
      destruct Hpre as (Hcity & _ & _).
      destruct (Hcity (changedCountry_false s before E Ec)) as [_ Hall].
      unfold cityAllowed in Hall. destruct (values s); exact Hall.
  - unfold roleAllowed. rewrite render_values.
    destruct (changedIndustry s) eqn:Ei.
    + destruct (keepRole_cases (industryId (values s)) (roleId (values s)))
        as [H0|[Hk Hin]]; destruct (values s); cbn in *; rewrite ?H0, ?Hk; auto.
    + unfold preconsistent in Hpre.
      destruct (committed s) as [before|] eqn:E;
        [|unfold changedIndustry in Ei; rewrite E in Ei; discriminate].
      destruct Hpre as (_ & Hrole & _).
      destruct (Hrole (changedIndustry_false s before E Ei)) as [_ Hall].
      unfold roleAllowed in Hall. destruct (values s); exact Hall.
  - now apply render_selectedRole.
Qed.
Lemma mount_consistent (initial : FieldValues) : consistent (mount initial).
Proof. apply render_consistent. exact I. Qed.

Lemma setField_preconsistent (s : Form) (u : Update) :
  consistent s -> offered s u = true ->
  preconsistent (setValues (write u (values s)) s).
Proof.
  intros [Hset Hcities Hroles Hcity Hrole Hsel] Hoff.
  apply settled_committed in Hset.
  unfold preconsistent, cityAllowed, roleAllowed in *.
  cbn [committed setValues values availableCities availableRoles selectedRole].
  rewrite Hset.
  cbn [watched watchCountry watchIndustry watchRole rolesSeen].
  repeat split.
  - rewrite Hcities. now rewrite H.
  - destruct u; cbn in *; try (rewrite <- H; exact Hcity);
      try (destruct (values s); cbn in *; subst; exact Hcity).
    apply andb_true_iff in Hoff as [_ Hin]. right.
    rewrite Hcities in Hin. now apply existsb_In_ids in Hin.
  - rewrite Hroles. now rewrite H.
  - destruct u; cbn in *; try (rewrite <- H; exact Hrole);
      try (destruct (values s); cbn in *; subst; exact Hrole).
    apply andb_true_iff in Hoff as [_ Hin]. right.
    rewrite Hroles in Hin. now apply existsb_In_ids in Hin.
  - intros H _. now rewrite <- H.
Qed.

Lemma setField_consistent (s : Form) (u : Update) :
  consistent s -> offered s u = true -> consistent (setField u s).
Proof.
  intros Hs Hoff. apply render_consistent.
  now apply setField_preconsistent.
Qed.

Lemma navigation_idle (s : Form) (k : Z) (d : FieldValues) :
  pending s = false -> render (setStep k (setFormData d s)) = setStep k (setFormData d s).
Proof. intros H. apply render_idle. exact H. Qed.

Lemma navigation_consistent (s : Form) (k : Z) (d : FieldValues) :
  consistent s -> consistent (setStep k (setFormData d s)).
Proof. intros [H1 H2 H3 H4 H5 H6]. constructor; assumption. Qed.

Lemma handlePrevious_shape (s : Form) :
  pending s = false ->
  handlePrevious s = setStep (step s - 1) (setFormData (values s) s).
Proof. intros H. unfold handlePrevious, spread. now apply navigation_idle. Qed.

Section WithEmail.
Variable isEmail : jsstring -> bool.

Lemma handleNext_shape (s : Form) :
  pending s = false ->
  handleNext isEmail s
  = match trigger isEmail s with
    | [] => (setStep (step s + 1) (setFormData (values s) s), Advanced)
    | errors => (s, Blocked errors PleaseFixErrors)
    end.
Proof.
  intros H. unfold handleNext, spread.
  destruct (trigger isEmail s); [|reflexivity].
  now rewrite navigation_idle.
Qed.

Lemma perform_consistent (s : Form) (e : Event) :
  consistent s -> wellTyped s e = true -> consistent (perform isEmail e s).
Proof.
  intros Hs Hgate. destruct e as [u| |]; simpl.
  - now apply setField_consistent.
  - rewrite handleNext_shape by apply Hs.
    destruct (trigger isEmail s); simpl; [|exact Hs].
    now apply navigation_consistent.
  - rewrite handlePrevious_shape by apply Hs.
    now apply navigation_consistent.
Qed.

(** Every state the form can be in between two events is consistent. *)
Lemma reachable_consistent (gate : Form -> Event -> bool) (s : Form) :
  (forall s' e, gate s' e = true -> wellTyped s' e = true) ->
  reachable isEmail gate s -> consistent s.
Proof.
  intros Hgate Hreach. induction Hreach as [initial|s e _ IH He].
  - apply mount_consistent.
  - apply perform_consistent; auto.
Qed.

Lemma onScreen_wellTyped (s : Form) (e : Event) :
  onScreen s e = true -> wellTyped s e = true.
Proof.
  destruct e; simpl; auto. now intros [H _]%andb_true_iff.
Qed.
End WithEmail.
(** What the dropdowns hand over is what [offered] admits. *)
Lemma viaDropdown_wellTyped (s : Form) (e : Event) :
  Controls.viaDropdown s e = wellTyped s e.
Proof.
  destruct e as [u| |]; [|reflexivity|reflexivity].
  destruct u; try reflexivity; simpl; unfold Controls.selects,
    Controls.pressButton, Controls.handleSelect; simpl.
  - now destruct (cityDisabled s).
  - now destruct (roleDisabled s).
Qed.

(** C2, as the code has it.  The form itself checks nothing: a dependent
    field stays among the options of its parent because its dropdown only
    hands over the id of an option on its list, and because the effects that
    follow a change of the parent unset a value the new parent does not
    allow.  For every sequence of calls in which the two dependent fields
    receive what their dropdown hands over, once the renders and effects of
    a call have run, each dependent field is unset or holds one of the
    options computed afresh from its parent; and a change of a parent keeps
    the dependent value when the new parent allows it and unsets it
    otherwise. *)
Theorem cascade_keeps_dependents_allowed (isEmail : jsstring -> bool)
  (s : Form) :
  reachable isEmail Controls.viaDropdown s ->
  cityAllowed s /\ roleAllowed s
  /\ (forall country,
       cityId (values (setField (U_countryId country) s))
       = keepCity country (cityId (values s)))
  /\ (forall industry,
       roleId (values (setField (U_industryId industry) s))
       = keepRole industry (roleId (values s))).
Proof.
  intros Hreach.
  assert (Hs : consistent s).
  { apply (reachable_consistent isEmail Controls.viaDropdown); auto.
    intros s' e He. now rewrite <- viaDropdown_wellTyped. }
  destruct Hs as [Hset _ _ Hcity Hrole _].
  apply settled_committed in Hset.
  split; [exact Hcity|]. split; [exact Hrole|]. split.
  - intros country. unfold setField. rewrite render_values.
    unfold changedCountry, changedIndustry.
    cbn [committed setValues values]. rewrite Hset.
    cbn [watched watchCountry watchIndustry].
    unfold cityAllowed in Hcity.
    destruct (values s) as [fn ln em ph co ci ad pc ind ro ex sal]; cbn in *.
    destruct (co =? country) eqn:E; cbn; [|reflexivity].
    apply Z.eqb_eq in E. subst. symmetry. now apply keepCity_allowed.
  - intros industry. unfold setField. rewrite render_values.
    unfold changedCountry, changedIndustry.
    cbn [committed setValues values]. rewrite Hset.
    cbn [watched watchCountry watchIndustry].
    unfold roleAllowed in Hrole.
    destruct (values s) as [fn ln em ph co ci ad pc ind ro ex sal]; cbn in *.
    destruct (ind =? industry) eqn:E; cbn; [|reflexivity].
    apply Z.eqb_eq in E. subst. symmetry. now apply keepRole_allowed.
Qed.

Lemma cascade_keeps_dependents_allowed_witness :
  let s := setField (U_cityId 101)
             (setField (U_countryId 1) (mount defaultValues)) in
  cityId (values s) = 101
  /\ cityAllowed s
  /\ cityId (values (setField (U_countryId 2) s)) = 0.
Proof.
  intros s.
  assert (Hreach : reachable hasAt Controls.viaDropdown s).
  { apply (reach_perform hasAt Controls.viaDropdown _ (Change (U_cityId 101)));
      [|reflexivity].
    apply (reach_perform hasAt Controls.viaDropdown _
             (Change (U_countryId 1))); [|reflexivity].
    apply reach_mount. }
  destruct (cascade_keeps_dependents_allowed hasAt s Hreach)
    as (Hcity & _ & Hcountry & _).
  split; [reflexivity|]. split; [exact Hcity|].
  rewrite Hcountry. reflexivity.
Defined.

(** C2, as stated, fails: the declared type of [cityId] is a number of at
    least 1, and a call that sets it to 999 under country 1 leaves 999 in
    place once the effects have run, although no city of that country has
    this id.  The dropdown never issues this call. *)
Lemma cascade_any_number_counterexample :
  let s := setField (U_countryId 1) (mount defaultValues) in
  let s' := setField (U_cityId 999) s in
  number_min 1 F_cityId "City is required" 999 = []
  /\ Controls.viaDropdown s (Change (U_cityId 999)) = false
  /\ pending s' = false
  /\ countryId (values s') = 1
  /\ cityId (values s') = 999
  /\ ~ cityAllowed s'.
Proof.
  intros s s'. repeat (split; [reflexivity|]).
  unfold cityAllowed. vm_compute. intros [H|H]; [discriminate|].
  repeat (destruct H as [H|H]; [discriminate|]). exact H.
Qed.

(** C8: a parent value without options, whether the table does not know it
    or lists nothing for it, is handled without failure: the option list of
    the dependent field is empty, its value is unset and its dropdown is
    disabled. *)
Theorem parent_without_options_disables (isEmail : jsstring -> bool)
  (s : Form) (country industry : Z) :
  reachable isEmail wellTyped s ->
  citiesByCountry country = None \/ citiesByCountry country = Some [] ->
  rolesByIndustry industry = None \/ rolesByIndustry industry = Some [] ->
  let s1 := setField (U_countryId country) s in
  let s2 := setField (U_industryId industry) s in
  (allowedCities country = [] /\ availableCities s1 = []
   /\ cityId (values s1) = 0 /\ cityDisabled s1 = true)
  /\ (allowedRoles industry = [] /\ availableRoles s2 = []
      /\ roleId (values s2) = 0 /\ roleDisabled s2 = true
      /\ selectedRole s2 = None).
Proof.
  intros Hreach Hcities Hroles s1 s2.
  assert (Hs : consistent s)
    by (apply (reachable_consistent isEmail wellTyped); auto).
  assert (Hnone : allowedCities country = []).
  { unfold allowedCities. destruct (truthy country && (0 <? country)); auto.
    destruct Hcities as [-> | ->]; reflexivity. }
  assert (Hnone' : allowedRoles industry = []).
  { unfold allowedRoles. destruct (truthy industry && (0 <? industry)); auto.
    destruct Hroles as [-> | ->]; reflexivity. }
  assert (H1 : consistent s1) by (apply setField_consistent; auto).
  assert (H2 : consistent s2) by (apply setField_consistent; auto).
  assert (Hc : countryId (values s1) = country).
  { unfold s1, setField. rewrite render_values.
    cbn [values setValues]. destruct (values s); reflexivity. }
  assert (Hi : industryId (values s2) = industry).
  { unfold s2, setField. rewrite render_values.
    cbn [values setValues]. destruct (values s); reflexivity. }
  destruct H1 as [_ Hfresh _ Hcity _ _], H2 as [_ _ Hfresh' _ Hrole Hsel].
  rewrite Hc, Hnone in Hfresh. rewrite Hi, Hnone' in Hfresh'.
  unfold cityAllowed in Hcity. unfold roleAllowed in Hrole.
  rewrite Hc, Hnone in Hcity. rewrite Hi, Hnone' in Hrole.
  split.
  - split; [exact Hnone|]. split; [exact Hfresh|].
    assert (cityId (values s1) = 0) as H0 by (destruct Hcity as [H|[]]; exact H).
    split; [exact H0|].
    unfold cityDisabled. rewrite Hfresh. apply orb_true_r.
  - split; [exact Hnone'|]. split; [exact Hfresh'|].
    assert (roleId (values s2) = 0) as H0 by (destruct Hrole as [H|[]]; exact H).
    split; [exact H0|]. split.
    + unfold roleDisabled. rewrite Hfresh'. apply orb_true_r.
    + rewrite Hsel, H0. reflexivity.
Qed.

Lemma parent_without_options_disables_witness :
  let s := setField (U_cityId 101)
             (setField (U_countryId 1) (mount defaultValues)) in
  length (availableCities s) = 4%nat
  /\ cityId (values s) = 101
  /\ availableCities (setField (U_countryId 9) s) = []
  /\ cityId (values (setField (U_countryId 9) s)) = 0
  /\ cityDisabled (setField (U_countryId 9) s) = true.
Proof.
  intros s.
  assert (Hreach : reachable hasAt wellTyped s).
  { apply (reach_perform hasAt wellTyped _ (Change (U_cityId 101)));
      [|reflexivity].
    apply (reach_perform hasAt wellTyped _ (Change (U_countryId 1)));
      [|reflexivity].
    apply reach_mount. }
  destruct (parent_without_options_disables hasAt s 9 0 Hreach
              (or_introl eq_refl) (or_introl eq_refl))
    as ((_ & Hcities & Hcity & Hdis) & _).
  split; [reflexivity|]. split; [reflexivity|]. auto.
Defined.
(** The cascade does not loop: from any state the renders that follow a
    change come to rest, with two rounds of effects at most, and rendering
    once more changes nothing. *)
Theorem cascade_comes_to_rest (s : Form) :
  pending (render s) = false
  /\ render (render s) = render s
  /\ (render s = s \/ render s = commit s \/ render s = commit (commit s)).
Proof.
  split; [apply render_settled|]. split.
  - apply render_idle, render_settled.
  - rewrite render_cases. destruct (pending s); auto.
    destruct (pending (commit s)); auto.
Qed.
End Cascade.

(** ** Navigation and submission *)

Section Steps.
Import JS MockData Validation JobApplicationForm.
Variable isEmail : jsstring -> bool.

(** C6: when the schema of the current step reports an issue, Next leaves
    the whole state as it is and surfaces the issues with an alert; when it
    reports none, Next moves one step forward (and, between two events,
    keeps the values). *)
Theorem handleNext_blocked_or_advances (s : Form) :
  (trigger isEmail s <> [] ->
   handleNext isEmail s = (s, Blocked (trigger isEmail s) PleaseFixErrors))
  /\ (trigger isEmail s = [] ->
      snd (handleNext isEmail s) = Advanced
      /\ step (fst (handleNext isEmail s)) = step s + 1
      /\ (pending s = false ->
          values (fst (handleNext isEmail s)) = values s
          /\ handleSaveDraft (fst (handleNext isEmail s)) = handleSaveDraft s)).
Proof.
  unfold handleNext. split.
  - intros Herr. destruct (trigger isEmail s); [contradiction|reflexivity].
  - intros ->. cbn [fst snd]. split; [reflexivity|].
    split; [now rewrite render_step|].
    intros Hidle. rewrite navigation_idle by exact Hidle. split; reflexivity.
Qed.

(** The schema of the third step asks for four positive numbers and
    nothing else. *)
Lemma professionalInfoSchema_passes (v : FieldValues) :
  professionalInfoSchema v = []
  <-> 1 <= industryId v /\ 1 <= roleId v /\ 1 <= experienceId v
      /\ 1 <= expectedSalary v.
Proof.
  unfold professionalInfoSchema, number_min, salaryRefinement.
  destruct (industryId v <? 1) eqn:E1, (roleId v <? 1) eqn:E2,
    (experienceId v <? 1) eqn:E3, (expectedSalary v <? 1) eqn:E4;
    simpl; split; try discriminate; try reflexivity;
    rewrite ?Z.ltb_lt, ?Z.ltb_ge in *; try lia.
Qed.

(** C3: on the third step, where Submit is shown, a salary below the
    minimum of the selected role never gets submitted; when every field
    passes its own rule, Submit stops at the alert that names the role's
    minimum, while the schema of the step and Next, which know nothing of
    that minimum, let the same values pass. *)
Theorem submit_refuses_salary_below_minimum (s : Form) (role : Role) :
  step s = 3 ->
  selectedRole s = Some role ->
  expectedSalary (values s) < minSalary role ->
  (forall finalData, submit isEmail s <> Submitted finalData)
  /\ (getStepSchema isEmail 3 (values s) = [] ->
      submit isEmail s
      = Refused (SalaryAlert {| for_role := role_name role;
                                minimum := minSalary role |})
      /\ snd (handleNext isEmail s) = Advanced).
Proof.
  intros Hstep Hrole Hlow.
  assert (Hrefused : trigger isEmail s = [] ->
            submit isEmail s
            = Refused (SalaryAlert {| for_role := role_name role;
                                      minimum := minSalary role |})).
  { intros Hvalid.
    assert (Hschema : professionalInfoSchema (values s) = []).
    { unfold trigger in Hvalid. now rewrite Hstep in Hvalid. }
    pose proof (proj1 (professionalInfoSchema_passes (values s)) Hschema)
      as (_ & _ & _ & Hpos).
    unfold submit, handleFinalSubmit, salaryError.
    rewrite Hvalid, Hrole. unfold truthy.
    replace (expectedSalary (values s) =? 0) with false
      by (symmetry; apply Z.eqb_neq; lia).
    replace (expectedSalary (values s) <? minSalary role) with true
      by (symmetry; apply Z.ltb_lt; lia).
    reflexivity. }
  split.
  - intros finalData. destruct (trigger isEmail s) eqn:Et.
    + rewrite (Hrefused eq_refl). discriminate.
    + unfold submit. rewrite Et. discriminate.
  - intros Hschema.
    assert (Hvalid : trigger isEmail s = [])
      by (unfold trigger; now rewrite Hstep).
    split; [now apply Hrefused|].
    unfold handleNext. now rewrite Hvalid.
Qed.

(** Previous asks nothing of the values: it moves one step back, copies
    the values into [formData] and, between two events, leaves them as they
    are. *)
Theorem handlePrevious_decrements (s : Form) :
  step (handlePrevious s) = step s - 1
  /\ formData (handlePrevious s) = values s
  /\ (pending s = false -> values (handlePrevious s) = values s).
Proof.
  unfold handlePrevious, spread. rewrite render_step, render_formData.
  split; [reflexivity|]. split; [reflexivity|].
  intros Hidle. now rewrite navigation_idle.
Qed.

(** A salary that reaches the minimum of the selected role is submitted,
    once the fields of the third step pass their rules. *)
Theorem submit_accepts_salary_at_minimum (s : Form) (role : Role) :
  trigger isEmail s = [] ->
  selectedRole s = Some role ->
  minSalary role <= expectedSalary (values s) ->
  submit isEmail s = Submitted (overlay (step s) (formData s) (values s)).
Proof.
  intros Hvalid Hrole Hmin.
  unfold submit, handleFinalSubmit, salaryError. rewrite Hvalid, Hrole.
  replace (expectedSalary (values s) <? minSalary role) with false
    by (symmetry; apply Z.ltb_ge; lia).
  now rewrite andb_false_r.
Qed.

(** *** The states the screen can lead to *)

Lemma getStepSchema_1 (v v' : FieldValues) :
  firstName v = firstName v' -> lastName v = lastName v' ->
  email v = email v' -> phone v = phone v' ->
  getStepSchema isEmail 1 v = getStepSchema isEmail 1 v'.
Proof.
  intros H1 H2 H3 H4. simpl. unfold personalInfoSchema.
  now rewrite H1, H2, H3, H4.
Qed.

Lemma getStepSchema_2 (v v' : FieldValues) :
  countryId v = countryId v' -> cityId v = cityId v' ->
  address v = address v' -> postalCode v = postalCode v' ->
  getStepSchema isEmail 2 v = getStepSchema isEmail 2 v'.
Proof.
  intros H1 H2 H3 H4. simpl. unfold locationSchema.
  now rewrite H1, H2, H3, H4.
Qed.

Lemma setField_later_step (s : Form) (u : Update) (j : Z) :
  consistent s -> 1 <= j < stepOf u -> stepOf u <= 3 ->
  getStepSchema isEmail j (values (setField u s))
  = getStepSchema isEmail j (values s).
Proof.
  intros [Hset _ _ _ _ _] Hj Hu. apply settled_committed in Hset.
  unfold setField. rewrite render_values.
  unfold changedCountry, changedIndustry.
  cbn [committed setValues values]. rewrite Hset.
  cbn [watched watchCountry watchIndustry].
  assert (j = 1 \/ j = 2) as [-> | ->] by lia.
  - apply getStepSchema_1;
      destruct u, (values s); cbn in *; try lia; reflexivity.
  - apply getStepSchema_2;
      destruct u, (values s); cbn in *; try lia; try reflexivity.
    all: now rewrite Z.eqb_refl.
Qed.

Lemma screen_invariant (s : Form) :
  reachable isEmail onScreen s ->
  consistent s /\ 1 <= step s <= 3 /\ validatedBelow isEmail s.
Proof.
  intros Hreach. induction Hreach as [initial|s e _ (Hs & Hrange & Hbelow) He].
  - split; [apply mount_consistent|].
    unfold mount. rewrite render_step. cbn [step].
    split; [lia|]. intros j Hj. unfold mount in Hj.
    rewrite render_step in Hj. cbn [step] in Hj. lia.
  - split; [apply perform_consistent; auto; now apply onScreen_wellTyped|].
    destruct e as [u| |]; cbn [perform onScreen] in *.
    + apply andb_true_iff in He as [Hoff Hstep]. apply Z.eqb_eq in Hstep.
      unfold setField at 1 2. rewrite render_step. cbn [step setValues].
      split; [exact Hrange|]. intros j Hj.
      fold (setField u s) in Hj. 
      assert (step (setField u s) = step s) as Hst
          by (unfold setField; now rewrite render_step).
      rewrite Hst in Hj.
      rewrite setField_later_step by (auto; lia). now apply Hbelow.
    + apply Z.ltb_lt in He.
      rewrite handleNext_shape by apply Hs.
      destruct (trigger isEmail s) eqn:Et; cbn [fst step setStep setFormData].
      * split; [lia|]. intros j Hj. cbn [step values setStep setFormData] in *.
        destruct (Z.eq_dec j (step s)) as [->|Hne]; [exact Et|].
        apply Hbelow. lia.
      * auto.
    + apply Z.ltb_lt in He.
      rewrite handlePrevious_shape by apply Hs.
      cbn [step setStep setFormData values]. split; [lia|].
      intros j Hj. cbn [step values setStep setFormData] in *.
      apply Hbelow. lia.
Qed.

(** C7: in any state the screen can lead to, past the first step, Previous
    followed at once by Next returns to the same step with the same values;
    the only change is that [formData] has caught up with the values. *)
Theorem previous_then_next_restores (s : Form) :
  reachable isEmail onScreen s ->
  1 < step s ->
  let back := handlePrevious s in
  let again := fst (handleNext isEmail back) in
  snd (handleNext isEmail back) = Advanced
  /\ step again = step s
  /\ values again = values s
  /\ handleSaveDraft again = handleSaveDraft s
  /\ again = setFormData (values s) s.
Proof.
  intros Hreach Hstep back again.
  destruct (screen_invariant s Hreach) as (Hs & Hrange & Hbelow).
  assert (Hback : back = setStep (step s - 1) (setFormData (values s) s))
    by (apply handlePrevious_shape, Hs).
  assert (Hidle : pending back = false) by (rewrite Hback; apply Hs).
  assert (Hvalid : trigger isEmail back = []).
  { rewrite Hback. unfold trigger. cbn [step values setStep setFormData].
    apply Hbelow. lia. }
  assert (Hagain : again = setFormData (values s) s).
  { unfold again. rewrite handleNext_shape by exact Hidle.
    rewrite Hvalid, Hback. cbn.
    replace (step s - 1 + 1) with (step s) by lia.
    now destruct s. }
  split.
  - rewrite handleNext_shape by exact Hidle. now rewrite Hvalid.
  - rewrite Hagain. repeat split; reflexivity.
Qed.
End Steps.

(** ** The theorems at the applicant of the examples *)

Section Examples.
Import JS MockData Validation JobApplicationForm.

Lemma handleNext_blocked_or_advances_witness :
  handleNext hasAt (mount defaultValues)
  = (mount defaultValues,
     Blocked (trigger hasAt (mount defaultValues)) PleaseFixErrors)
  /\ List.map fst (trigger hasAt (mount defaultValues))
     = [F_firstName; F_lastName; F_email; F_phone]
  /\ step (fst (handleNext hasAt (mount applicant))) = 2.
Proof.
  split; [|split].
  - apply (handleNext_blocked_or_advances hasAt (mount defaultValues)).
    vm_compute. discriminate.
  - reflexivity.
  - apply (proj2 (handleNext_blocked_or_advances hasAt (mount applicant))
             eq_refl).
Defined.

Lemma submit_refuses_salary_below_minimum_witness :
  let s := perform hasAt Next (perform hasAt Next (mount applicant)) in
  step s = 3
  /\ expectedSalary (values s) = 75000
  /\ getStepSchema hasAt 3 (values s) = []
  /\ submit hasAt s
     = Refused (SalaryAlert {| for_role := lit "Software Engineer";
                               minimum := 80000 |}).
Proof.
  intros s. split; [reflexivity|]. split; [reflexivity|].
  split; [reflexivity|].
  apply (submit_refuses_salary_below_minimum hasAt s
           (role 101 "Software Engineer" 80000));
    [reflexivity|reflexivity|vm_compute; reflexivity|reflexivity].
Defined.

Lemma previous_then_next_restores_witness :
  let s := perform hasAt Next (perform hasAt Next (mount applicant)) in
  step s = 3
  /\ step (handlePrevious s) = 2
  /\ step (fst (handleNext hasAt (handlePrevious s))) = step s
  /\ values (fst (handleNext hasAt (handlePrevious s))) = values s.
Proof.
  intros s.
  assert (Hreach : reachable hasAt (onScreen) s).
  { apply (reach_perform hasAt onScreen _ Next); [|reflexivity].
    apply (reach_perform hasAt onScreen _ Next); [|reflexivity].
    apply reach_mount. }
  destruct (previous_then_next_restores hasAt s Hreach ltac:(vm_compute; reflexivity))
    as (_ & Hstep & Hvalues & _).
  split; [reflexivity|]. split; [reflexivity|]. split; assumption.
Defined.

Lemma drafts_one_record_per_id_witness :
  let s := App.run [App.Edit jane; App.SaveDraft applicant 0; App.New;
                    App.SaveDraft applicant 1; App.Edit jane]
             (App.initial 1700000000000) in
  App.ids (App.savedDrafts s) = [2; 1700000000000]
  /\ App.ids (App.savedDrafts (App.handleSaveDraft defaultValues 3 s))
     = [2; 1700000000000]
  /\ NoDup (App.ids (App.savedDrafts (App.handleSaveDraft defaultValues 3 s))).
Proof.
  intros s. split; [reflexivity|]. split; [reflexivity|].
  apply (drafts_one_record_per_id
           [App.Edit jane; App.SaveDraft applicant 0; App.New;
            App.SaveDraft applicant 1; App.Edit jane]
           1700000000000 defaultValues 3).
Defined.
(** Between a change of the country and the effect that answers it, one
    render still holds the city of the old country. *)
Lemma stale_until_effects_run :
  let s := setField (U_cityId 101)
             (setField (U_countryId 1) (mount defaultValues)) in
  let changed := setValues (write (U_countryId 2) (values s)) s in
  pending changed = true
  /\ cityId (values changed) = 101
  /\ keepCity (countryId (values changed)) (cityId (values changed)) = 0
  /\ cityId (values (render changed)) = 0.
Proof. vm_compute. repeat split; reflexivity. Qed.

(** The form itself accepts any number as a city: only the dropdown keeps
    the value among the options. *)
Lemma unoffered_city_is_kept :
  let s := setField (U_countryId 1) (mount defaultValues) in
  offered s (U_cityId 999) = false
  /\ cityId (values (setField (U_cityId 999) s)) = 999
  /\ keepCity (countryId (values s)) 999 = 0.
Proof. vm_compute. repeat split; reflexivity. Qed.

Lemma submit_accepts_salary_at_minimum_witness :
  let s := setField (U_expectedSalary 80000)
             (perform hasAt Next (perform hasAt Next (mount applicant))) in
  step s = 3
  /\ submit hasAt s = Submitted (set_expectedSalary 80000 applicant).
Proof.
  intros s. split; [reflexivity|].
  rewrite (submit_accepts_salary_at_minimum hasAt s
             (role 101 "Software Engineer" 80000));
    [reflexivity|reflexivity|reflexivity|vm_compute; discriminate].
Defined.
End Examples.


(** ** Pages and footer of the list *)

Section Pages.
Import JS MockData ApplicationsList Pagination.

Lemma slice_take_drop {A} (start k : Z) (l : list A) :
  0 <= start -> 0 <= k ->
  slice start (start + k) l
  = take (Z.to_nat k) (drop (Z.to_nat start) l).
Proof.
  intros Hs Hk. unfold slice.
  replace (start <? 0) with false by (symmetry; apply Z.ltb_ge; lia).
  replace (start + k <? 0) with false by (symmetry; apply Z.ltb_ge; lia).
  destruct (Z_lt_le_dec start (Z.of_nat (length l))) as [Hin|Hout].
  - rewrite (Z.min_l start) by lia.
    set (rest := drop (Z.to_nat start) l).
    assert (Hlen : length rest = (length l - Z.to_nat start)%nat)
      by apply length_drop.
    destruct (Z_le_gt_dec (start + k) (Z.of_nat (length l))).
    + rewrite Z.min_l by lia. f_equal. lia.
    + rewrite Z.min_r by lia. rewrite !take_ge by (rewrite Hlen; lia).
      reflexivity.
  - rewrite !Z.min_r by lia.
    replace (Z.to_nat (Z.max (Z.of_nat (length l) - Z.of_nat (length l)) 0))
      with 0%nat by lia.
    rewrite (drop_ge l (Z.to_nat start)) by lia.
    rewrite drop_ge by lia. now rewrite !take_nil.
Qed.

Lemma chunks_take {A} (k m : nat) (l : list A) :
  flat_map (fun i => take k (drop (i * k) l)) (seq 0 m) = take (m * k) l.
Proof.
  induction m as [|m IH]; [reflexivity|].
  rewrite seq_S, flat_map_app, IH. simpl. rewrite app_nil_r.
  rewrite take_take_drop. f_equal. lia.
Qed.

Lemma paginatedData_page (H : Host) (v : View) (applications : list Application)
  (p : Z) :
  1 <= p -> 0 <= itemsPerPage v ->
  paginatedData H (setCurrentPage p v) applications
  = take (Z.to_nat (itemsPerPage v))
      (drop (Z.to_nat ((p - 1) * itemsPerPage v))
         (sortedAndFilteredData H v applications)).
Proof.
  intros Hp Hk. unfold paginatedData. cbn [currentPage itemsPerPage setCurrentPage].
  change (sortedAndFilteredData H (setCurrentPage p v) applications)
    with (sortedAndFilteredData H v applications).
  apply slice_take_drop; nia.
Qed.

(** The pages 1 to [totalPages], one after the other, are the sorted list:
    no record is on two pages and none is left out; a page holds
    [itemsPerPage] records, the last one possibly fewer. *)
Theorem pages_partition_the_list (H : Host) (v : View)
  (applications : list Application) :
  0 < itemsPerPage v ->
  flat_map (fun p => paginatedData H (setCurrentPage p v) applications)
    (pages (totalPages H v applications))
  = sortedAndFilteredData H v applications
  /\ (forall p, 1 <= p ->
        Z.of_nat (length (paginatedData H (setCurrentPage p v) applications))
        <= itemsPerPage v)
  /\ (forall p, 1 <= p < totalPages H v applications ->
        Z.of_nat (length (paginatedData H (setCurrentPage p v) applications))
        = itemsPerPage v).
Proof.
  intros Hk.
  pose proof (Math_ceil_div_spec
                (Z.of_nat (length (sortedAndFilteredData H v applications)))
                (itemsPerPage v) Hk) as Hceil.
  fold (totalPages H v applications) in Hceil.
  set (pageCount := totalPages H v applications) in *.
  set (sorted := sortedAndFilteredData H v applications) in *.
  split; [|split].
  - unfold pages. rewrite flat_map_concat_map, map_map, <- flat_map_concat_map.
    rewrite (flat_map_ext _
               (fun i => take (Z.to_nat (itemsPerPage v))
                           (drop (i * Z.to_nat (itemsPerPage v)) sorted))).
    + rewrite chunks_take. apply take_ge.
      assert (0 <= pageCount) by nia.
      apply Nat2Z.inj_le. rewrite Nat2Z.inj_mul, !Z2Nat.id by lia. nia.
    + intros i. rewrite paginatedData_page by lia. fold sorted.
      do 2 f_equal. rewrite Z2Nat.inj_mul by lia.
      replace (Z.of_nat i + 1 - 1) with (Z.of_nat i) by lia.
      now rewrite Nat2Z.id.
  - intros p Hp. rewrite paginatedData_page by lia. rewrite length_take. lia.
  - intros p Hp. rewrite paginatedData_page by lia. fold sorted.
    rewrite length_take, length_drop.
    assert ((p - 1) * itemsPerPage v + itemsPerPage v
            <= Z.of_nat (length sorted)) by nia.
    assert (0 <= (p - 1) * itemsPerPage v) by nia.
    lia.
Qed.

Lemma pages_partition_the_list_witness :
  let v := setFilter (lit "submitted") initial in
  List.map (fun p => List.map app_id
                       (paginatedData V8.host (setCurrentPage p v)
                          (mockApplications ++ mockApplications)))
    (pages (totalPages V8.host v (mockApplications ++ mockApplications)))
  = [[4; 4; 3; 3; 1]; [1]]
  /\ flat_map
       (fun p => paginatedData V8.host (setCurrentPage p v)
                   (mockApplications ++ mockApplications))
       (pages (totalPages V8.host v (mockApplications ++ mockApplications)))
     = sortedAndFilteredData V8.host v (mockApplications ++ mockApplications).
Proof.
  intros v. split; [reflexivity|].
  apply (pages_partition_the_list V8.host v
           (mockApplications ++ mockApplications)).
  simpl. lia.
Defined.

Lemma totalPages_of_filter (H : Host) (v v' : View)
  (applications : list Application) :
  rearranges H ->
  filterStatus v' = filterStatus v -> itemsPerPage v' = itemsPerPage v ->
  totalPages H v' applications = totalPages H v applications.
Proof.
  intros Hperm Hf Hk. unfold totalPages.
  rewrite !sorted_length by exact Hperm. unfold filtered. now rewrite Hf, Hk.
Qed.

Lemma reachable_page_in_range (H : Host) (applications : list Application)
  (v : View) :
  rearranges H ->
  reachable H applications v ->
  itemsPerPage v = 5
  /\ 1 <= currentPage v <= Z.max 1 (totalPages H v applications).
Proof.
  intros Hperm Hreach.
  induction Hreach as [|v e _ [Hk Hpage] He]; [simpl; lia|].
  destruct e as [status|field| | |index]; cbn [perform onScreen] in *.
  - simpl. split; [exact Hk|lia].
  - assert (Hsame : totalPages H (handleSort field v) applications
                    = totalPages H v applications).
    { apply totalPages_of_filter; auto; unfold handleSort;
        now destruct (Key_eqb _ _). }
    rewrite Hsame. unfold handleSort.
    destruct (Key_eqb _ _); simpl; auto.
  - change (totalPages H (pressPrevious v) applications)
      with (totalPages H v applications).
    simpl. split; [exact Hk|lia].
  - change (totalPages H (pressNext (totalPages H v applications) v) applications)
      with (totalPages H v applications).
    apply andb_true_iff in He as [He _]. apply Z.ltb_lt in He.
    simpl. split; [exact Hk|lia].
  - change (totalPages H (pressPage index v) applications)
      with (totalPages H v applications).
    apply andb_true_iff in He as [He Hhi]. apply andb_true_iff in He as [He Hlo].
    apply Z.ltb_lt in He, Hhi. apply Z.leb_le in Hlo.
    simpl. split; [exact Hk|lia].
Qed.

Lemma reachable_page_start (H : Host) (applications : list Application)
  (v : View) :
  rearranges H ->
  reachable H applications v ->
  0 < itemsPerPage v /\ 1 <= currentPage v
  /\ (currentPage v - 1) * itemsPerPage v
     <= Z.of_nat (length (sortedAndFilteredData H v applications))
  /\ (sortedAndFilteredData H v applications <> [] ->
      (currentPage v - 1) * itemsPerPage v
      < Z.of_nat (length (sortedAndFilteredData H v applications))).
Proof.
  intros Hperm Hreach.
  destruct (reachable_page_in_range H applications v Hperm Hreach)
    as [Hk Hpage].
  pose proof (Math_ceil_div_spec
                (Z.of_nat (length (sortedAndFilteredData H v applications)))
                (itemsPerPage v) ltac:(lia)) as Hceil.
  fold (totalPages H v applications) in Hceil.
  split; [lia|]. split; [lia|]. split; [nia|].
  intros Hne.
  assert (0 < Z.of_nat (length (sortedAndFilteredData H v applications)))
    by (destruct (sortedAndFilteredData H v applications);
        [contradiction|simpl; lia]).
  nia.
Qed.

(** Whatever the buttons pressed, the page stays between 1 and the number
    of pages (page 1 when there is none), and while some record matches the
    filter the page shown is not empty. *)
Theorem page_stays_in_range (H : Host) (applications : list Application)
  (v : View) :
  rearranges H ->
  reachable H applications v ->
  itemsPerPage v = 5
  /\ 1 <= currentPage v <= Z.max 1 (totalPages H v applications)
  /\ (filtered v applications <> [] -> paginatedData H v applications <> []).
Proof.
  intros Hperm Hreach.
  destruct (reachable_page_in_range H applications v Hperm Hreach)
    as [Hk Hpage].
  split; [exact Hk|]. split; [exact Hpage|].
  intros Hsome Hnone.
  destruct (reachable_page_start H applications v Hperm Hreach)
    as (_ & _ & _ & Hstart).
  assert (Hsorted : sortedAndFilteredData H v applications <> []).
  { intros Hnil. apply Hsome. apply Permutation_nil.
    rewrite <- Hnil. unfold sortedAndFilteredData. apply Hperm. }
  specialize (Hstart Hsorted).
  assert (Hshape : paginatedData H v applications
                   = paginatedData H (setCurrentPage (currentPage v) v)
                       applications) by (now destruct v).
  rewrite Hshape, paginatedData_page in Hnone by lia.
  apply (f_equal (@length _)) in Hnone.
  rewrite length_take, length_drop in Hnone. simpl in Hnone. lia.
Qed.

Lemma page_stays_in_range_witness :
  let v := perform V8.host (mockApplications ++ mockApplications)
             (Filter (lit "draft"))
             (perform V8.host (mockApplications ++ mockApplications) Next
                initial) in
  currentPage (perform V8.host (mockApplications ++ mockApplications) Next
                 initial) = 2
  /\ currentPage v = 1
  /\ 1 <= currentPage v
     <= Z.max 1 (totalPages V8.host v (mockApplications ++ mockApplications)).
Proof.
  intros v. split; [reflexivity|]. split; [reflexivity|].
  apply (page_stays_in_range V8.host (mockApplications ++ mockApplications) v
           V8_rearranges).
  apply reach_perform; [|reflexivity].
  apply reach_perform; [|reflexivity].
  apply reach_initial.
Defined.

(** The footer counts the rows on screen: in "Showing a - b of n", the
    numbers from a to b are as many as the records of the visible page
    (none, written "1 - 0", for the empty list). *)
Theorem footer_counts_visible_rows (H : Host)
  (applications : list Application) (v : View) :
  rearranges H ->
  reachable H applications v ->
  showingTo v (Z.of_nat (length (sortedAndFilteredData H v applications)))
  - showingFrom v + 1
  = Z.of_nat (length (paginatedData H v applications)).
Proof.
  intros Hperm Hreach.
  destruct (reachable_page_start H applications v Hperm Hreach)
    as (Hk & Hp & Hstart & _).
  assert (Hshape : paginatedData H v applications
                   = paginatedData H (setCurrentPage (currentPage v) v)
                       applications) by (now destruct v).
  rewrite Hshape, paginatedData_page by lia.
  rewrite length_take, length_drop. unfold showingTo, showingFrom.
  assert (currentPage v * itemsPerPage v
          = (currentPage v - 1) * itemsPerPage v + itemsPerPage v) by ring.
  assert (0 <= (currentPage v - 1) * itemsPerPage v) by nia.
  lia.
Qed.

Lemma footer_counts_visible_rows_witness :
  let v := perform V8.host (mockApplications ++ mockApplications) Next
             initial in
  showingFrom v = 6
  /\ showingTo v 10 = 10
  /\ showingTo v
       (Z.of_nat (length (sortedAndFilteredData V8.host v
                            (mockApplications ++ mockApplications))))
     - showingFrom v + 1
     = Z.of_nat (length (paginatedData V8.host v
                           (mockApplications ++ mockApplications))).
Proof.
  intros v. split; [reflexivity|]. split; [reflexivity|].
  apply (footer_counts_visible_rows V8.host
           (mockApplications ++ mockApplications) v V8_rearranges).
  apply reach_perform; [|reflexivity]. apply reach_initial.
Defined.
End Pages.


(** ** V8's sort under a comparator that orders distinct elements *)

Section V8Order.
Context {A : Type}.
Variable cmp : A -> A -> Z.
Variable lt : A -> A -> Prop.
Variable known : A -> Prop.
Hypothesis lt_trans : forall x y z, lt x y -> lt y z -> lt x z.
Hypothesis cmp_lt :
  forall x y, known x -> known y -> x <> y ->
    (cmp x y < 0 -> lt x y) /\ (0 <= cmp x y -> lt y x).

Lemma StronglySorted_lookup_lt (s : list A) :
  StronglySorted lt s ->
  forall (i j : nat) (a b : A),
    (i < j)%nat -> s !! i = Some a -> s !! j = Some b -> lt a b.
Proof.
  induction 1 as [|x s Hs IH Hall]; intros i j a b Hij Hi Hj.
  - discriminate.
  - destruct j as [|j]; [lia|]. destruct i as [|i]; simpl in *.
    + injection Hi as <-. rewrite Forall_forall in Hall. apply Hall.
      eapply list_elem_of_lookup_2; eauto.
    + apply (IH i j); auto; lia.
Qed.

Lemma search_spec (fuel : nat) (pivot : A) (s : list A) :
  StronglySorted lt s -> known pivot -> (forall x, x ∈ s -> known x) ->
  pivot ∉ s ->
  forall left right : nat,
    (left <= right <= length s)%nat -> (right - left <= fuel)%nat ->
    (forall i x, (i < left)%nat -> s !! i = Some x -> lt x pivot) ->
    (forall i x, (right <= i)%nat -> s !! i = Some x -> lt pivot x) ->
    let found := V8.search cmp fuel pivot s left right in
    (found <= length s)%nat
    /\ (forall i x, (i < found)%nat -> s !! i = Some x -> lt x pivot)
    /\ (forall i x, (found <= i)%nat -> s !! i = Some x -> lt pivot x).
Proof.
  intros Hsorted Hpivot Hknown Hfresh.
  induction fuel as [|fuel IH]; intros left right Hrange Hfuel Hleft Hright.
  - cbn [V8.search]. assert (left = right) by lia. subst.
    repeat split; auto; lia.
  - cbn [V8.search]. destruct (left <? right)%nat eqn:Elt.
    + apply Nat.ltb_lt in Elt.
      set (mid := (left + (right - left) / 2)%nat).
      assert (Hmid : (left <= mid < right)%nat).
      { unfold mid. pose proof (Nat.div_lt (right - left) 2 ltac:(lia) ltac:(lia)).
        lia. }
      destruct (lookup_lt_is_Some_2 s mid ltac:(lia)) as [x Hx].
      rewrite Hx.
      assert (Hin : x ∈ s) by (eapply list_elem_of_lookup_2; eauto).
      assert (Hne : pivot <> x) by (intros ->; contradiction).
      destruct (cmp_lt pivot x Hpivot (Hknown x Hin) Hne) as [Hlow Hhigh].
      destruct (cmp pivot x <? 0) eqn:Ecmp.
      * apply Z.ltb_lt in Ecmp. apply IH; auto; try lia.
        intros i y Hi Hy. destruct (Nat.eq_dec i mid) as [->|Hne'].
        -- rewrite Hx in Hy. injection Hy as <-. auto.
        -- apply (lt_trans _ x); auto.
           apply (StronglySorted_lookup_lt s Hsorted mid i); auto; lia.
      * apply Z.ltb_ge in Ecmp. apply IH; auto; try lia.
        intros i y Hi Hy. destruct (Nat.eq_dec i mid) as [->|Hne'].
        -- rewrite Hx in Hy. injection Hy as <-. auto.
        -- apply (lt_trans _ x); auto.
           apply (StronglySorted_lookup_lt s Hsorted i mid); auto; lia.
    + apply Nat.ltb_ge in Elt. assert (left = right) by lia. subst.
      repeat split; auto; lia.
Qed.

Lemma place_sorted (s : list A) (pivot : A) :
  StronglySorted lt s -> known pivot -> (forall x, x ∈ s -> known x) ->
  pivot ∉ s ->
  StronglySorted lt (V8.place cmp s pivot).
Proof.
  intros Hsorted Hpivot Hknown Hfresh. unfold V8.place.
  destruct (search_spec (S (length s)) pivot s Hsorted Hpivot Hknown Hfresh
              0%nat (length s) ltac:(lia) ltac:(lia))
    as (Hlen & Hbelow & Habove).
  { intros i x Hi. lia. }
  { intros i x Hi Hx. apply lookup_lt_Some in Hx. lia. }
  set (found := V8.search cmp (S (length s)) pivot s 0 (length s)) in *.
  rewrite <- (take_drop found s) in Hsorted.
  apply StronglySorted_app in Hsorted as (Hcross & Htake & Hdrop).
  apply StronglySorted_app_2; auto.
  - intros x1 x2 H1 H2. apply elem_of_take in H1 as (i & Hi & Hlt).
    apply elem_of_cons in H2 as [->|H2].
    + eapply Hbelow; eauto.
    + apply Hcross; auto. apply elem_of_take. eauto.
  - constructor; auto. apply Forall_forall. intros y Hy.
    apply list_elem_of_lookup in Hy as (i & Hy). rewrite lookup_drop in Hy.
    eapply (Habove (found + i)%nat); eauto. lia.
Qed.

Lemma BinaryInsertionSort_sorted (others run : list A) :
  StronglySorted lt run -> NoDup (run ++ others) ->
  (forall x, x ∈ run ++ others -> known x) ->
  StronglySorted lt (V8.BinaryInsertionSort cmp run others).
Proof.
  unfold V8.BinaryInsertionSort.
  revert run; induction others as [|pivot others IH];
    intros run Hsorted Hnodup Hknown; simpl; [exact Hsorted|].
  apply NoDup_app in Hnodup as (Hrun & Hdisj & Hothers).
  apply NoDup_cons in Hothers as [Hfresh Hothers].
  assert (Hpivot : pivot ∉ run)
    by (intros Hin; apply (Hdisj pivot Hin); left).
  assert (Hperm : V8.place cmp run pivot ≡ₚ pivot :: run)
    by apply place_perm.
  apply IH.
  - apply place_sorted; auto.
    + apply Hknown. apply elem_of_app. right. left.
    + intros x Hx. apply Hknown. apply elem_of_app. now left.
  - rewrite Hperm. simpl. apply NoDup_cons. split.
    + intros Hin. apply elem_of_app in Hin as [Hin|Hin]; contradiction.
    + apply NoDup_app. repeat split; auto.
      intros x Hx Hx'. apply (Hdisj x Hx). now right.
  - intros x Hx. apply Hknown. rewrite Hperm in Hx.
    apply elem_of_app.
    apply elem_of_cons in Hx as [->|Hx].
    + right. left.
    + apply elem_of_app in Hx as [Hx|Hx]; [now left|right; now right].
Qed.

Lemma run_rest_chain (d : bool) (l : list A) (prev : A) :
  NoDup (prev :: l) -> (forall x, x ∈ prev :: l -> known x) ->
  Sorted (if d then flip lt else lt)
    (prev :: fst (V8.run_rest cmp d prev l)).
Proof.
  revert prev; induction l as [|cur l IH]; intros prev Hnodup Hknown; simpl.
  - repeat constructor.
  - apply NoDup_cons in Hnodup as [Hprev Hnodup].
    assert (Hne : cur <> prev) by (intros ->; apply Hprev; left).
    destruct (cmp_lt cur prev) as [Hlow Hhigh]; auto.
    { apply Hknown. right. left. }
    { apply Hknown. left. }
    specialize (IH cur Hnodup).
    destruct (if d then 0 <=? cmp cur prev else cmp cur prev <? 0) eqn:E;
      simpl; [repeat constructor|].
    destruct (V8.run_rest cmp d cur l) as [run others] eqn:Er. simpl in *.
    constructor.
    + apply IH. intros x Hx. apply Hknown. now right.
    + constructor. destruct d; simpl.
      * apply Z.leb_gt in E. auto.
      * apply Z.ltb_ge in E. auto.
Qed.

Lemma StronglySorted_rev_flip (l : list A) :
  StronglySorted (flip lt) l -> StronglySorted lt (rev l).
Proof.
  induction 1 as [|x l Hl IH Hall]; simpl; [constructor|].
  apply StronglySorted_app_2; auto.
  - intros x1 x2 H1 H2. apply list_elem_of_singleton in H2 as ->.
    rewrite Forall_forall in Hall. apply Hall.
    apply list_elem_of_In. apply in_rev. now apply list_elem_of_In.
  - repeat constructor.
Qed.

Lemma flip_trans x y z : flip lt x y -> flip lt y z -> flip lt x z.
Proof. unfold flip. eauto. Qed.

(** With distinct elements that [cmp] orders like [lt], the sort returns
    them in the order of [lt]. *)
Lemma V8_sort_sorted (l : list A) :
  NoDup l -> (forall x, x ∈ l -> known x) ->
  StronglySorted lt (V8.sort cmp l).
Proof.
  intros Hnodup Hknown. unfold V8.sort.
  destruct l as [|low [|high rest]]; simpl (length _ <? 2)%nat; cbv iota.
  - constructor.
  - repeat constructor.
  - pose proof (CountAndMakeRun_perm cmp (low :: high :: rest)) as Hperm.
    unfold V8.CountAndMakeRun in *.
    assert (Hne : high <> low).
    { apply NoDup_cons in Hnodup as [Hlow _]. intros ->. apply Hlow. left. }
    destruct (cmp_lt high low) as [Hdown Hup]; auto.
    { apply Hknown. right. left. }
    { apply Hknown. left. }
    pose proof (run_rest_chain (cmp high low <? 0) rest high) as Hchain.
    destruct (V8.run_rest cmp (cmp high low <? 0) high rest)
      as [run others] eqn:Er.
    simpl in Hperm, Hchain.
    specialize (Hchain ltac:(now apply NoDup_cons in Hnodup as [_ ?])
                       ltac:(intros x Hx; apply Hknown; now right)).
    apply BinaryInsertionSort_sorted.
    + destruct (cmp high low <? 0) eqn:E.
      * apply Z.ltb_lt in E.
        apply (StronglySorted_rev_flip (low :: high :: run)).
        apply Sorted_StronglySorted; [exact flip_trans|].
        constructor; [exact Hchain|]. constructor. unfold flip. auto.
      * apply Z.ltb_ge in E.
        apply Sorted_StronglySorted; [exact lt_trans|].
        constructor; [exact Hchain|]. constructor. auto.
    + rewrite Hperm. exact Hnodup.
    + intros x Hx. apply Hknown. now rewrite <- Hperm.
Qed.
End V8Order.


(** ** The sorted list when no two records tie *)

Section SortedList.
Import JS MockData ApplicationsList.

Lemma ltb_trans (a b c : jsstring) :
  JS.ltb a b = true -> JS.ltb b c = true -> JS.ltb a c = true.
Proof.
  revert b c; induction a as [|x a IH]; intros [|y b] [|z c]; simpl;
    try discriminate; auto.
  destruct (N.ltb_spec x y), (N.ltb_spec y x), (N.ltb_spec y z),
    (N.ltb_spec z y), (N.ltb_spec x z), (N.ltb_spec z x);
    try discriminate; try lia; auto.
  apply IH.
Qed.

Lemma ltb_total (a b : jsstring) :
  a <> b -> JS.ltb a b = true \/ JS.ltb b a = true.
Proof.
  revert b; induction a as [|x a IH]; intros [|y b] Hne; simpl; auto;
    try contradiction.
  destruct (N.ltb_spec x y), (N.ltb_spec y x); auto; try lia.
  assert (x = y) by lia. subst. apply IH. congruence.
Qed.

Lemma Value_ltb_trans (x y z : Value) :
  Value_ltb x y = true -> Value_ltb y z = true -> Value_ltb x z = true.
Proof.
  destruct x, y, z; simpl; try discriminate.
  - rewrite !Z.ltb_lt. lia.
  - apply ltb_trans.
Qed.

Lemma Value_gtb_ltb (x y : Value) : Value_gtb x y = Value_ltb y x.
Proof. destruct x, y; reflexivity. Qed.

Lemma sortKey_total (H : Host) (field : Key) (a b : Application) :
  sortKey H field a <> sortKey H field b ->
  Value_ltb (sortKey H field a) (sortKey H field b) = true
  \/ Value_ltb (sortKey H field b) (sortKey H field a) = true.
Proof.
  unfold sortKey. pose proof (prop_same_type field a b) as Ht.
  destruct (prop field a), (prop field b); try contradiction; simpl; intros Hne.
  - rewrite !Z.ltb_lt. assert (n <> n0) by congruence. lia.
  - apply ltb_total. congruence.
Qed.

Lemma NoDup_map_injective {A B} (f : A -> B) (l : list A) (x y : A) :
  NoDup (List.map f l) -> In x l -> In y l -> f x = f y -> x = y.
Proof.
  induction l as [|a l IH]; simpl; intros Hnd Hx Hy Hf; [contradiction|].
  apply NoDup_cons in Hnd as [Ha Hnd].
  destruct Hx as [->|Hx], Hy as [->|Hy]; auto.
  - exfalso. apply Ha. rewrite Hf. apply list_elem_of_In. now apply in_map.
  - exfalso. apply Ha. rewrite <- Hf. apply list_elem_of_In. now apply in_map.
Qed.

Lemma NoDup_map_source {A B} (f : A -> B) (l : list A) :
  NoDup (List.map f l) -> NoDup l.
Proof.
  induction l as [|a l IH]; simpl; intros Hnd; [constructor|].
  apply NoDup_cons in Hnd as [Ha Hnd]. apply NoDup_cons. split; auto.
  intros Hin. apply Ha. apply list_elem_of_In, in_map.
  now apply list_elem_of_In.
Qed.

(** On V8, whatever the lowering of strings, when the records that pass
    the filter have pairwise different sort keys (strings compared lowered),
    the list comes out in the order of the keys: ascending for [asc],
    descending for [desc]. *)
Theorem sorted_when_no_ties (lower : jsstring -> jsstring) (v : View)
  (applications : list Application) :
  let H := V8.hostWith lower in
  NoDup (List.map (sortKey H (sortField v)) (filtered v applications)) ->
  StronglySorted
    (fun a b =>
       match sortDirection v with
       | asc => Value_ltb (sortKey H (sortField v) a)
                  (sortKey H (sortField v) b) = true
       | desc => Value_ltb (sortKey H (sortField v) b)
                   (sortKey H (sortField v) a) = true
       end)
    (sortedAndFilteredData H v applications).
Proof.
  intros H Hkeys. unfold sortedAndFilteredData. simpl.
  apply (V8_sort_sorted _ _ (fun x => In x (filtered v applications))).
  - intros x y z. destruct (sortDirection v); intros Hxy Hyz;
      eapply Value_ltb_trans; eauto.
  - intros x y Hx Hy Hne.
    assert (Hk : sortKey H (sortField v) x
                 <> sortKey H (sortField v) y).
    { intros Heq. apply Hne.
      now apply (NoDup_map_injective _ _ x y Hkeys). }
    rewrite comparator_sortKey.
    pose proof (sortKey_total H (sortField v) x y Hk) as Htotal.
    destruct (sortDirection v); rewrite ?Value_gtb_ltb;
      destruct (Value_ltb (sortKey H (sortField v) x)
                  (sortKey H (sortField v) y)),
               (Value_ltb (sortKey H (sortField v) y)
                  (sortKey H (sortField v) x));
      split; intros; try lia; try reflexivity;
      destruct Htotal; discriminate.
  - now apply NoDup_map_source in Hkeys.
  - intros x Hx. now apply list_elem_of_In.
Qed.

Lemma sorted_when_no_ties_witness :
  let v := handleSort Ksalary initial in
  List.map app_salary (paginatedData V8.host v mockApplications)
  = [62000; 78000; 85000; 120000; 145000]
  /\ totalPages V8.host v mockApplications = 1
  /\ StronglySorted (fun a b => (app_salary a <? app_salary b) = true)
       (sortedAndFilteredData V8.host v mockApplications).
Proof.
  intros v. split; [reflexivity|]. split; [reflexivity|].
  apply (sorted_when_no_ties V8.toLowerCase v mockApplications).
  apply NoDup_ListNoDup. vm_compute.
  repeat (constructor; [simpl; intuition discriminate|]). constructor.
Defined.
End SortedList.

(** ** What the list shows *)

Section ListContents.
Import JS MockData ApplicationsList Pagination.

Lemma filtered_In (v : View) (applications : list Application)
  (a : Application) :
  In a (filtered v applications)
  <-> In a applications
      /\ (filterStatus v = lit "all" \/ app_status a = filterStatus v).
Proof.
  unfold filtered.
  destruct (JS.eqb (filterStatus v) (lit "all")) eqn:E; simpl.
  - apply eqb_eq in E. tauto.
  - rewrite filter_In, eqb_eq. split; [tauto|].
    intros [Hin [Hall|Hst]]; [|tauto].
    apply eqb_eq in Hall. congruence.
Qed.

(** The sorted list holds exactly the records of the collection that pass
    the filter: all of them under "all", otherwise those whose status is the
    filter, compared exactly (case matters here, unlike in the sort). *)
Theorem list_shows_what_the_filter_passes (H : Host) (v : View)
  (applications : list Application) (a : Application) :
  rearranges H ->
  In a (sortedAndFilteredData H v applications)
  <-> In a applications
      /\ (filterStatus v = lit "all" \/ app_status a = filterStatus v).
Proof.
  intros Hperm. rewrite <- filtered_In. unfold sortedAndFilteredData.
  split; apply Permutation_in; [|symmetry]; apply Hperm.
Qed.

Lemma list_shows_what_the_filter_passes_witness :
  let v := setFilter (lit "draft") initial in
  (In jane (sortedAndFilteredData V8.host v mockApplications)
   <-> In jane mockApplications
       /\ (filterStatus v = lit "all" \/ app_status jane = filterStatus v))
  /\ app_status jane = filterStatus v.
Proof.
  intros v. split; [|reflexivity].
  apply (list_shows_what_the_filter_passes V8.host v mockApplications jane
           V8_rearranges).
Defined.

(** The comparator orders records with different keys consistently (the
    answer for (b, a) is the opposite of the answer for (a, b), and 1 means
    that a belongs after b in the chosen direction); on equal keys it
    answers -1 in both orders, never 0. *)
Theorem comparator_consistent_unless_tied (H : Host) (field : Key)
  (d : Direction) (a b : Application) :
  (sortKey H field a = sortKey H field b ->
   comparator H field d a b = -1 /\ comparator H field d b a = -1)
  /\ (sortKey H field a <> sortKey H field b ->
      comparator H field d a b = - comparator H field d b a
      /\ (comparator H field d a b = 1 <->
          match d with
          | asc => Value_ltb (sortKey H field b) (sortKey H field a) = true
          | desc => Value_ltb (sortKey H field a) (sortKey H field b) = true
          end)).
Proof.
  split; [apply comparator_tie|].
  intros Hne. rewrite !comparator_sortKey, !Value_gtb_ltb.
  pose proof (sortKey_total H field a b Hne) as Htotal.
  assert (Hboth :
    Value_ltb (sortKey H field a) (sortKey H field b) = true ->
    Value_ltb (sortKey H field b) (sortKey H field a) = true -> False).
  { intros Hab Hba.
    pose proof (Value_ltb_trans _ _ _ Hab Hba) as Hrefl.
    destruct (sortKey H field a); simpl in Hrefl;
      [rewrite Z.ltb_irrefl in Hrefl|rewrite ltb_irrefl in Hrefl];
      discriminate. }
  destruct d;
    destruct (Value_ltb (sortKey H field a) (sortKey H field b)),
             (Value_ltb (sortKey H field b) (sortKey H field a));
    try (exfalso; now apply Hboth);
    try (destruct Htotal; discriminate);
    split; try reflexivity; split; intros; try reflexivity;
    try discriminate.
Qed.

(** On V8, whatever the lowering of strings, records that all share their
    sort key come out in the reverse of the order they went in, in either
    direction. *)
Theorem tied_records_come_out_reversed (lower : jsstring -> jsstring)
  (v : View) (applications : list Application) :
  let H := V8.hostWith lower in
  (forall a b, In a (filtered v applications) ->
               In b (filtered v applications) ->
               sortKey H (sortField v) a = sortKey H (sortField v) b) ->
  sortedAndFilteredData H v applications = rev (filtered v applications).
Proof.
  intros H Hties. unfold sortedAndFilteredData. simpl.
  apply V8_sort_all_negative. intros x y Hx Hy.
  destruct (comparator_tie H (sortField v) (sortDirection v) x y
              (Hties x y Hx Hy)) as [-> _].
  lia.
Qed.

Lemma tied_records_come_out_reversed_witness :
  let v := setFilter (lit "submitted") (handleSort Kstatus initial) in
  sortedAndFilteredData V8.host v mockApplications = [maria; robert; john]
  /\ filtered v mockApplications = [john; robert; maria].
Proof.
  intros v. split; [|reflexivity].
  change V8.host with (V8.hostWith V8.toLowerCase).
  rewrite (tied_records_come_out_reversed V8.toLowerCase v mockApplications);
    [reflexivity|].
  intros a b Ha Hb. vm_compute in Ha, Hb.
  destruct Ha as [<-|[<-|[<-|[]]]], Hb as [<-|[<-|[<-|[]]]]; reflexivity.
Defined.

(** A column header toggles: a second click on the active column flips the
    direction back, so two clicks on the active column restore the view and
    three clicks equal one; two clicks on another column leave it selected,
    descending. *)
Theorem header_clicks_toggle (field : Key) (v : View) :
  handleSort field (handleSort field (handleSort field v))
  = handleSort field v
  /\ (sortField v = field -> handleSort field (handleSort field v) = v)
  /\ (sortField v <> field ->
      sortField (handleSort field (handleSort field v)) = field
      /\ sortDirection (handleSort field (handleSort field v)) = desc).
Proof.
  unfold handleSort. destruct v as [p n f d s]; simpl.
  destruct (Key_eqb f field) eqn:E; simpl.
  - rewrite E. simpl. rewrite E. apply Key_eqb_eq in E. subst.
    destruct d; simpl; repeat split; try reflexivity; congruence.
  - assert (Hrefl : Key_eqb field field = true) by now apply Key_eqb_eq.
    rewrite Hrefl. simpl. rewrite Hrefl. simpl.
    repeat split. intros ->. congruence.
Qed.
End ListContents.

(** ** The responsive layout *)

Section Layouts.
Import Responsive.

Lemma geb_mono (w : Q) (a b : Z) :
  a <= b -> geb w b = true -> geb w a = true.
Proof.
  unfold geb. rewrite !QArith_base.Qle_bool_iff. intros Hab Hb.
  apply QArith_base.Qle_trans with (QArith_base.inject_Z b); [|exact Hb].
  now rewrite <- QArith_base.Zle_Qle.
Qed.

(** Every window width falls in exactly one of the three classes mobile,
    tablet and desktop, and the list renders the layout of that class; a
    wide window is a desktop window; the helper [responsive] picks the value
    of the same class. *)
Theorem one_layout_per_width (w h : Q) :
  let s := useResponsive w h in
  match renderItem s with
  | MobileCard =>
      isMobile s = true /\ isTablet s = false /\ isDesktop s = false
  | TabletRow =>
      isMobile s = false /\ isTablet s = true /\ isDesktop s = false
  | DesktopRow =>
      isMobile s = false /\ isTablet s = false /\ isDesktop s = true
  end
  /\ (isWide s = true -> isDesktop s = true)
  /\ (forall (A : Type) (m t d : A),
         responsive w m t d
         = match renderItem s with
           | MobileCard => m
           | TabletRow => t
           | DesktopRow => d
           end).
Proof.
  unfold renderItem, responsive, useResponsive, ltb. simpl.
  pose proof (geb_mono w 768 1024 ltac:(lia)) as H1.
  pose proof (geb_mono w 1024 1440 ltac:(lia)) as H2.
  destruct (geb w 768), (geb w 1024), (geb w 1440); simpl;
    repeat split; auto; try discriminate;
    try (specialize (H1 eq_refl); discriminate);
    try (specialize (H2 eq_refl); discriminate).
Qed.

(** The sortable column headers follow the layout: none on the cards, four
    on a tablet row and seven on a desktop row, never a header twice. *)
Theorem sortable_columns_by_layout (w h : Q) :
  let s := useResponsive w h in
  sortableColumns s
  = match renderItem s with
    | MobileCard => []
    | TabletRow =>
        [ApplicationsList.KfirstName; ApplicationsList.Kemail;
         ApplicationsList.Krole; ApplicationsList.Kstatus]
    | DesktopRow =>
        [ApplicationsList.Kid; ApplicationsList.KfirstName;
         ApplicationsList.Kemail; ApplicationsList.Kcountry;
         ApplicationsList.Krole; ApplicationsList.Ksalary;
         ApplicationsList.Kstatus]
    end.
Proof.
  unfold sortableColumns, renderItem, useResponsive, ltb. simpl.
  destruct (geb w 768), (geb w 1024); reflexivity.
Qed.
End Layouts.

(** ** The form as a user meets it *)

Section Journey.
Import JS MockData Validation JobApplicationForm Controls.
Variable isEmail : jsstring -> bool.

(** *** The tables of mockData.js *)

Lemma allowedCities_known (country : Z) :
  allowedCities country <> [] -> In country [1; 2; 3; 4; 5].
Proof.
  unfold allowedCities.
  destruct (truthy country && (0 <? country)); [|congruence].
  destruct (citiesByCountry country) eqn:E; [|simpl; congruence].
  intros _. unfold citiesByCountry in E.
  destruct country as [|p|p]; try discriminate.
  do 3 (try (destruct p as [p|p|]; try discriminate)); simpl; auto 10.
Qed.

Lemma allowedRoles_known (industry : Z) :
  allowedRoles industry <> [] -> In industry [1; 2; 3; 4; 5].
Proof.
  unfold allowedRoles.
  destruct (truthy industry && (0 <? industry)); [|congruence].
  destruct (rolesByIndustry industry) eqn:E; [|simpl; congruence].
  intros _. unfold rolesByIndustry in E.
  destruct industry as [|p|p]; try discriminate.
  do 3 (try (destruct p as [p|p|]; try discriminate)); simpl; auto 10.
Qed.

(** A city belongs to one country, a role to one industry, and no option
    has the id 0 that stands for "nothing selected". *)
Lemma city_of_one_country (a b city : Z) :
  In city (List.map id (allowedCities a)) ->
  In city (List.map id (allowedCities b)) -> a = b.
Proof.
  intros Ha Hb.
  assert (Ka : In a [1; 2; 3; 4; 5])
    by (apply allowedCities_known; intros E; now rewrite E in Ha).
  assert (Kb : In b [1; 2; 3; 4; 5])
    by (apply allowedCities_known; intros E; now rewrite E in Hb).
  simpl in Ka, Kb.
  destruct Ka as [<-|[<-|[<-|[<-|[<-|[]]]]]];
    destruct Kb as [<-|[<-|[<-|[<-|[<-|[]]]]]];
    try reflexivity; exfalso; cbv in Ha, Hb; lia.
Qed.

Lemma role_of_one_industry (a b r : Z) :
  In r (List.map role_id (allowedRoles a)) ->
  In r (List.map role_id (allowedRoles b)) -> a = b.
Proof.
  intros Ha Hb.
  assert (Ka : In a [1; 2; 3; 4; 5])
    by (apply allowedRoles_known; intros E; now rewrite E in Ha).
  assert (Kb : In b [1; 2; 3; 4; 5])
    by (apply allowedRoles_known; intros E; now rewrite E in Hb).
  simpl in Ka, Kb.
  destruct Ka as [<-|[<-|[<-|[<-|[<-|[]]]]]];
    destruct Kb as [<-|[<-|[<-|[<-|[<-|[]]]]]];
    try reflexivity; exfalso; cbv in Ha, Hb; lia.
Qed.

Lemma city_ids_positive (country city : Z) :
  In city (List.map id (allowedCities country)) -> 0 < city.
Proof.
  intros Hin.
  assert (K : In country [1; 2; 3; 4; 5])
    by (apply allowedCities_known; intros E; now rewrite E in Hin).
  simpl in K.
  destruct K as [<-|[<-|[<-|[<-|[<-|[]]]]]]; cbv in Hin; lia.
Qed.

Lemma role_ids_positive (industry r : Z) :
  In r (List.map role_id (allowedRoles industry)) -> 0 < r.
Proof.
  intros Hin.
  assert (K : In industry [1; 2; 3; 4; 5])
    by (apply allowedRoles_known; intros E; now rewrite E in Hin).
  simpl in K.
  destruct K as [<-|[<-|[<-|[<-|[<-|[]]]]]]; cbv in Hin; lia.
Qed.

Lemma keepCity_other_country (a b city : Z) :
  city = 0 \/ In city (List.map id (allowedCities a)) ->
  a <> b -> keepCity b city = 0.
Proof.
  intros Hcity Hne.
  destruct (keepCity_cases b city) as [H0|[_ Hin]]; [exact H0|].
  destruct Hcity as [->|Ha].
  - apply city_ids_positive in Hin. lia.
  - exfalso. apply Hne. now apply (city_of_one_country a b city).
Qed.

Lemma keepRole_other_industry (a b r : Z) :
  r = 0 \/ In r (List.map role_id (allowedRoles a)) ->
  a <> b -> keepRole b r = 0.
Proof.
  intros Hrole Hne.
  destruct (keepRole_cases b r) as [H0|[_ Hin]]; [exact H0|].
  destruct Hrole as [->|Ha].
  - apply role_ids_positive in Hin. lia.
  - exfalso. apply Hne. now apply (role_of_one_industry a b r).
Qed.

(** *** A change of a parent *)

Lemma setField_values (s : Form) (u : Update) :
  pending s = false ->
  values (setField u s)
  = set_roleId
      (if negb (industryId (values s) =? industryId (write u (values s)))
       then keepRole (industryId (write u (values s)))
              (roleId (write u (values s)))
       else roleId (write u (values s)))
      (set_cityId
         (if negb (countryId (values s) =? countryId (write u (values s)))
          then keepCity (countryId (write u (values s)))
                 (cityId (write u (values s)))
          else cityId (write u (values s)))
         (write u (values s))).
Proof.
  intros Hset. apply settled_committed in Hset.
  unfold setField. rewrite render_values.
  unfold changedCountry, changedIndustry.
  cbn [committed setValues values]. rewrite Hset.
  reflexivity.
Qed.

(** Selecting another country always unsets the city, and selecting
    another industry always unsets the role, the selected role record and
    with it the salary message: with the tables of the application no city
    belongs to two countries and no role to two industries. *)
Theorem switching_parent_clears_dependent (s : Form) (country industry : Z) :
  reachable isEmail viaDropdown s ->
  let s1 := setField (U_countryId country) s in
  let s2 := setField (U_industryId industry) s in
  (country <> countryId (values s) ->
   countryId (values s1) = country /\ cityId (values s1) = 0)
  /\ (industry <> industryId (values s) ->
      industryId (values s2) = industry /\ roleId (values s2) = 0
      /\ selectedRole s2 = None /\ salaryError s2 = None).
Proof.
  intros Hreach s1 s2.
  assert (Hs : consistent s).
  { apply (reachable_consistent isEmail viaDropdown); auto.
    intros s' e He. now rewrite <- viaDropdown_wellTyped. }
  assert (H2 : consistent s2) by (apply setField_consistent; auto).
  destruct Hs as [Hset _ _ Hcity Hrole _].
  unfold cityAllowed in Hcity. unfold roleAllowed in Hrole.
  split.
  - intros Hne. unfold s1. rewrite (setField_values s _ Hset).
    destruct (values s) as [fn ln em ph co ci ad pc ind ro ex sal]; cbn in *.
    split; [reflexivity|].
    replace (co =? country) with false by (symmetry; apply Z.eqb_neq; lia).
    cbn. apply (keepCity_other_country co); auto.
  - intros Hne.
    assert (Hvals : industryId (values s2) = industry
                    /\ roleId (values s2) = 0).
    { unfold s2. rewrite (setField_values s _ Hset).
      destruct (values s) as [fn ln em ph co ci ad pc ind ro ex sal];
        cbn in *.
      split; [reflexivity|].
      replace (ind =? industry) with false
        by (symmetry; apply Z.eqb_neq; lia).
      cbn. apply (keepRole_other_industry ind); auto. }
    destruct Hvals as [Hi Hr]. split; [exact Hi|]. split; [exact Hr|].
    assert (Hsel : selectedRole s2 = None).
    { rewrite (role_selected s2 H2), Hr. reflexivity. }
    split; [exact Hsel|]. unfold salaryError. now rewrite Hsel.
Qed.

End Journey.

Section JourneyExamples.
Import JS MockData Validation JobApplicationForm Controls.

Lemma switching_parent_clears_dependent_witness :
  let s := perform hasAt (Change (U_roleId 101))
             (perform hasAt (Change (U_industryId 1))
                (perform hasAt (Change (U_cityId 101))
                   (perform hasAt (Change (U_countryId 1))
                      (mount defaultValues)))) in
  (cityId (values s) = 101 /\ roleId (values s) = 101)
  /\ (countryId (values (setField (U_countryId 2) s)) = 2
      /\ cityId (values (setField (U_countryId 2) s)) = 0)
  /\ (industryId (values (setField (U_industryId 3) s)) = 3
      /\ roleId (values (setField (U_industryId 3) s)) = 0
      /\ selectedRole (setField (U_industryId 3) s) = None
      /\ salaryError (setField (U_industryId 3) s) = None).
Proof.
  intros s.
  assert (Hreach : reachable hasAt viaDropdown s).
  { unfold s.
    repeat (apply reach_perform; [|vm_compute; reflexivity]).
    apply reach_mount. }
  split; [split; vm_compute; reflexivity|].
  destruct (switching_parent_clears_dependent hasAt s 2 3 Hreach)
    as [Hc Hi].
  split; [apply Hc|apply Hi]; vm_compute; discriminate.
Defined.
End JourneyExamples.

(** ** From the first step to the submitted application *)

Section Submission.
Import JS MockData Validation JobApplicationForm Controls.
Variable isEmail : jsstring -> bool.

(** No step can be reached before the steps below it pass their schema,
    whatever the user does with the controls on screen. *)
Theorem steps_validated_in_order (s : Form) :
  reachable isEmail onScreen s ->
  1 <= step s <= 3
  /\ (forall j, 1 <= j < step s -> getStepSchema isEmail j (values s) = []).
Proof.
  intros Hreach. destruct (screen_invariant isEmail s Hreach) as (_ & H & Hb).
  split; [exact H|exact Hb].
Qed.

Lemma overlay_same (k : Z) (v : FieldValues) : overlay k v v = v.
Proof.
  unfold overlay. destruct v.
  destruct k as [|p|p]; try reflexivity.
  do 2 (try (destruct p as [p|p|]; try reflexivity)).
Qed.

Lemma overlay_2_agrees (fd v : FieldValues) :
  overlay 2 fd v = v
  <-> firstName fd = firstName v /\ lastName fd = lastName v
      /\ email fd = email v /\ phone fd = phone v
      /\ industryId fd = industryId v /\ roleId fd = roleId v
      /\ experienceId fd = experienceId v
      /\ expectedSalary fd = expectedSalary v.
Proof.
  destruct fd, v; cbn. split.
  - intros [= -> -> -> -> -> -> -> ->]. repeat split.
  - intros (-> & -> & -> & -> & -> & -> & -> & ->). reflexivity.
Qed.

Lemma overlay_3_agrees (fd v : FieldValues) :
  overlay 3 fd v = v
  <-> firstName fd = firstName v /\ lastName fd = lastName v
      /\ email fd = email v /\ phone fd = phone v
      /\ countryId fd = countryId v /\ cityId fd = cityId v
      /\ address fd = address v /\ postalCode fd = postalCode v.
Proof.
  destruct fd, v; cbn. split.
  - intros [= -> -> -> -> -> -> -> ->]. repeat split.
  - intros (-> & -> & -> & -> & -> & -> & -> & ->). reflexivity.
Qed.

(** A change of a field of the second step leaves the fields of the other
    steps as they are, and likewise for the third step. *)
Lemma setField_other_steps (s : Form) (u : Update) :
  pending s = false ->
  let v := values s in
  let v' := values (setField u s) in
  (stepOf u = 2 ->
   firstName v' = firstName v /\ lastName v' = lastName v
   /\ email v' = email v /\ phone v' = phone v
   /\ industryId v' = industryId v /\ roleId v' = roleId v
   /\ experienceId v' = experienceId v
   /\ expectedSalary v' = expectedSalary v)
  /\ (stepOf u = 3 ->
      firstName v' = firstName v /\ lastName v' = lastName v
      /\ email v' = email v /\ phone v' = phone v
      /\ countryId v' = countryId v /\ cityId v' = cityId v
      /\ address v' = address v /\ postalCode v' = postalCode v).
Proof.
  intros Hset v v'. unfold v'. rewrite (setField_values s u Hset).
  fold v. clearbody v. clear.
  split; intros Hu; destruct u; try discriminate Hu; destruct v;
    cbn [write set_countryId set_cityId set_address set_postalCode
         set_industryId set_roleId set_experienceId set_expectedSalary
         firstName lastName email phone countryId cityId address postalCode
         industryId roleId experienceId expectedSalary];
    rewrite ?Z.eqb_refl; cbn [negb]; repeat split.
Qed.

(** Past the first step, [formData] differs from the values in the fields
    of the current step at most. *)
Lemma formData_follows (s : Form) :
  reachable isEmail onScreen s ->
  step s = 1 \/ overlay (step s) (formData s) (values s) = values s.
Proof.
  intros Hreach. induction Hreach as [initial|s e Hreach IH He].
  - left. unfold mount. now rewrite render_step.
  - destruct (screen_invariant isEmail s Hreach) as (Hs & Hrange & _).
    pose proof (is_settled s Hs) as Hset.
    destruct e as [u| |]; cbn [perform onScreen] in He |- *.
    + apply andb_true_iff in He as [_ Hstep]. apply Z.eqb_eq in Hstep.
      assert (Hst : step (setField u s) = step s)
        by (unfold setField; now rewrite render_step).
      assert (Hfd : formData (setField u s) = formData s)
        by (unfold setField; now rewrite render_formData).
      rewrite Hst, Hfd.
      destruct (Z.eq_dec (step s) 1) as [H1|H1]; [now left|right].
      destruct IH as [IH|IH]; [contradiction|].
      destruct (setField_other_steps s u Hset) as [H2 H3].
      assert (Hk : step s = 2 \/ step s = 3) by lia.
      destruct Hk as [Hk|Hk]; rewrite Hk in IH |- *; rewrite Hk in Hstep.
      * apply overlay_2_agrees in IH. apply overlay_2_agrees.
        destruct (H2 Hstep) as (-> & -> & -> & -> & -> & -> & -> & ->).
        exact IH.
      * apply overlay_3_agrees in IH. apply overlay_3_agrees.
        destruct (H3 Hstep) as (-> & -> & -> & -> & -> & -> & -> & ->).
        exact IH.
    + rewrite handleNext_shape by exact Hset.
      destruct (trigger isEmail s); cbn [fst step formData values setStep
                                           setFormData]; [|exact IH].
      right. apply overlay_same.
    + rewrite handlePrevious_shape by exact Hset.
      cbn [step formData values setStep setFormData].
      right. apply overlay_same.
Qed.

Lemma locationSchema_passes (v : FieldValues) :
  locationSchema v = [] -> 1 <= countryId v /\ 1 <= cityId v.
Proof.
  unfold locationSchema, number_min.
  destruct (countryId v <? 1) eqn:E1; [discriminate|].
  destruct (cityId v <? 1) eqn:E2; [discriminate|].
  rewrite Z.ltb_ge in E1, E2. auto.
Qed.

Lemma find_by_id {A} (key : A -> Z) (l : list A) (x : Z) :
  In x (List.map key l) ->
  exists a, find (fun a => key a =? x) l = Some a /\ In a l /\ key a = x.
Proof.
  unfold find. induction l as [|a l IH]; simpl; [contradiction|].
  destruct (key a =? x) eqn:E.
  - intros _. exists a. apply Z.eqb_eq in E. auto.
  - intros [H|H]; [apply Z.eqb_neq in E; contradiction|].
    destruct (IH H) as (b & Hf & Hin & Hk). exists b. auto.
Qed.

(** What Submit hands to [onSubmit] on the third step, where the button
    is: the values of the form as they stand, which pass the schemas of all
    three steps, with a city of the chosen country and a role of the chosen
    industry whose minimum salary the expected salary reaches. *)
Theorem submitted_application_is_complete (s : Form)
  (finalData : FieldValues) :
  reachable isEmail onScreen s ->
  step s = 3 ->
  submit isEmail s = Submitted finalData ->
  finalData = values s
  /\ (forall j, 1 <= j <= 3 -> getStepSchema isEmail j finalData = [])
  /\ In (cityId finalData)
        (List.map id (allowedCities (countryId finalData)))
  /\ exists role,
       In role (allowedRoles (industryId finalData))
       /\ role_id role = roleId finalData
       /\ minSalary role <= expectedSalary finalData.
Proof.
  intros Hreach Hstep Hsubmit.
  destruct (screen_invariant isEmail s Hreach) as (Hs & _ & Hbelow).
  destruct (formData_follows s Hreach) as [H1|Hfd]; [lia|].
  unfold submit in Hsubmit.
  destruct (trigger isEmail s) eqn:Hvalid; [|discriminate].
  unfold handleFinalSubmit in Hsubmit.
  destruct (salaryError s) eqn:Hsal; [discriminate|].
  injection Hsubmit as <-. rewrite Hfd.
  assert (Hthree : getStepSchema isEmail 3 (values s) = [])
    by (unfold trigger in Hvalid; now rewrite Hstep in Hvalid).
  split; [reflexivity|]. split.
  { intros j Hj. destruct (Z.eq_dec j 3) as [->|Hne]; [exact Hthree|].
    apply Hbelow. lia. }
  destruct Hs as [_ _ Hroles Hcity Hrole Hsel].
  split.
  - assert (Htwo : locationSchema (values s) = [])
      by (apply (Hbelow 2); lia).
    apply locationSchema_passes in Htwo as [_ Hpos].
    destruct Hcity as [H0|Hin]; [lia|exact Hin].
  - apply professionalInfoSchema_passes in Hthree
      as (_ & Hrpos & _ & Hspos).
    destruct Hrole as [H0|Hin]; [lia|].
    destruct (find_by_id role_id _ _ Hin) as (role & Hfind & Hmem & Hid).
    exists role. split; [exact Hmem|]. split; [exact Hid|].
    unfold salaryError in Hsal. rewrite Hsel, Hroles in Hsal.
    unfold lookupRole, truthy in Hsal.
    replace (roleId (values s) =? 0) with false in Hsal
      by (symmetry; apply Z.eqb_neq; lia).
    replace (0 <? roleId (values s)) with true in Hsal
      by (symmetry; apply Z.ltb_lt; lia).
    cbn [negb andb] in Hsal. rewrite Hfind in Hsal.
    replace (expectedSalary (values s) =? 0) with false in Hsal
      by (symmetry; apply Z.eqb_neq; lia).
    cbn [negb andb] in Hsal.
    destruct (expectedSalary (values s) <? minSalary role) eqn:E;
      [discriminate|].
    now apply Z.ltb_ge in E.
Qed.


(** Editing a record of the list opens the form on the first step with
    the two names and the e-mail address of the record and nothing else: the
    record has no phone number and names its country, city, industry and
    role by name, not by id.  Next is refused until a phone number is
    entered. *)
Theorem edit_from_list_needs_phone (app : Application) :
  let s := mount (fromApplication (Some app)) in
  step s = 1
  /\ values s
     = set_firstName (app_firstName app)
         (set_lastName (app_lastName app)
            (set_email (app_email app) defaultValues))
  /\ (exists errors,
        handleNext isEmail s = (s, Blocked errors PleaseFixErrors)
        /\ In F_phone (List.map fst errors)).
Proof.
  intros s.
  assert (Hstep : step s = 1) by (unfold s, mount; now rewrite render_step).
  assert (Hvalues : values s
     = set_firstName (app_firstName app)
         (set_lastName (app_lastName app)
            (set_email (app_email app) defaultValues))).
  { unfold s, mount. rewrite render_values. reflexivity. }
  split; [exact Hstep|]. split; [exact Hvalues|].
  assert (Hphone : In F_phone (List.map fst (trigger isEmail s))).
  { unfold trigger. rewrite Hstep, Hvalues. cbn [getStepSchema].
    unfold personalInfoSchema. rewrite !map_app, !in_app_iff.
    right. right. right. cbn. auto. }
  exists (trigger isEmail s). split; [|exact Hphone].
  unfold handleNext. destruct (trigger isEmail s); [contradiction|reflexivity].
Qed.
End Submission.

Section SubmissionExamples.
Import JS MockData Validation JobApplicationForm Controls.

Lemma steps_validated_in_order_witness :
  let s := perform hasAt Next (perform hasAt Next (mount applicant)) in
  step s = 3
  /\ getStepSchema hasAt 1 (values s) = []
  /\ getStepSchema hasAt 2 (values s) = [].
Proof.
  intros s.
  assert (Hreach : reachable hasAt onScreen s).
  { unfold s. repeat (apply reach_perform; [|vm_compute; reflexivity]).
    apply reach_mount. }
  assert (Hstep : step s = 3) by (vm_compute; reflexivity).
  destruct (steps_validated_in_order hasAt s Hreach) as [_ Hbelow].
  split; [exact Hstep|].
  split; apply Hbelow; rewrite Hstep; lia.
Defined.

Lemma submitted_application_is_complete_witness :
  let s := perform hasAt (Change (U_expectedSalary 80000))
             (perform hasAt Next (perform hasAt Next (mount applicant))) in
  submit hasAt s = Submitted (set_expectedSalary 80000 applicant)
  /\ set_expectedSalary 80000 applicant = values s
  /\ getStepSchema hasAt 1 (set_expectedSalary 80000 applicant) = [].
Proof.
  intros s.
  assert (Hreach : reachable hasAt onScreen s).
  { unfold s. repeat (apply reach_perform; [|vm_compute; reflexivity]).
    apply reach_mount. }
  assert (Hsubmit : submit hasAt s
                    = Submitted (set_expectedSalary 80000 applicant))
    by (vm_compute; reflexivity).
  destruct (submitted_application_is_complete hasAt s _ Hreach
              ltac:(vm_compute; reflexivity) Hsubmit) as (Hv & Hall & _).
  split; [exact Hsubmit|]. split; [exact Hv|].
  apply Hall. lia.
Defined.

End SubmissionExamples.

(** ** Drafts stay *)

Section DraftsStay.
Import JS MockData Validation JobApplicationForm App.

Lemma perform_keeps_drafts (e : Event) (s : State) (i : Z) :
  In i (ids (savedDrafts s)) ->
  In i (ids (savedDrafts (perform e s)))
  /\ (length (savedDrafts s) <= length (savedDrafts (perform e s)))%nat.
Proof.
  intros Hin. destruct e; simpl; auto.
  destruct (upsert_cases (makeDraft d between s) (savedDrafts s))
    as [(_ & k & old & Hk & Hid & ->)|(_ & ->)].
  - rewrite (ids_insert_same _ old k _ Hk Hid), length_insert. auto.
  - unfold ids in *. rewrite map_app, in_app_iff, length_app. split; auto.
    lia.
Qed.

(** Nothing the application does removes a draft: an identifier once in
    the drafts collection stays there whatever follows, and the collection
    never shrinks.  In particular submitting an application leaves its
    draft behind. *)
Theorem drafts_are_never_lost (events : list Event) (s : State) (i : Z) :
  In i (ids (savedDrafts s)) ->
  In i (ids (savedDrafts (run events s)))
  /\ (length (savedDrafts s) <= length (savedDrafts (run events s)))%nat
  /\ (forall d, savedDrafts (perform (Submit d) (run events s))
                = savedDrafts (run events s)).
Proof.
  intros Hin. split; [|split; [|reflexivity]].
  - unfold run. revert s Hin.
    induction events as [|e events IH]; intros s Hin; simpl; auto.
    apply IH. now apply perform_keeps_drafts.
  - unfold run. revert s Hin.
    induction events as [|e events IH]; intros s Hin; simpl; auto.
    destruct (perform_keeps_drafts e s i Hin) as [Hin' Hlen].
    specialize (IH _ Hin'). lia.
Qed.

Lemma drafts_are_never_lost_witness :
  let s := run [Edit jane; SaveDraft applicant 0] (initial 1700000000000) in
  let after := run [Submit applicant; New; SaveDraft defaultValues 1] s in
  ids (savedDrafts s) = [2]
  /\ In 2 (ids (savedDrafts after))
  /\ ids (savedDrafts after) = [2; 1700000000000].
Proof.
  intros s after. split; [reflexivity|]. split; [|reflexivity].
  apply (drafts_are_never_lost
           [Submit applicant; New; SaveDraft defaultValues 1] s 2).
  simpl. auto.
Defined.
End DraftsStay.
